(** * Koku Kitchen: the page interaction controller of [js/main.js]

    A shallow embedding of the script: the part of the document the
    script reads and writes is a record, every function and listener of
    the script is a computation over that record which may end in an
    uncaught [TypeError], and the host's event loop (listener dispatch,
    animation frames, timers) is a step function over events. *)

From Stdlib Require Import ZArith String List Bool Lia.
Import ListNotations.
Open Scope string_scope.
Open Scope Z_scope.

(* ================================================================== *)
(** ** DOMTokenList: [element.classList] *)
(* ================================================================== *)

Module ClassList.

(** The tokens of a class attribute in order. *)
Definition t := list string.

Definition contains (tok : string) (l : t) : bool :=
  existsb (String.eqb tok) l.

Definition remove (tok : string) (l : t) : t :=
  filter (fun c => negb (String.eqb tok c)) l.

Definition add (tok : string) (l : t) : t :=
  if contains tok l then l else (l ++ [tok])%list.

(** [toggle] removes the token when present and appends it otherwise. *)
Definition toggle (tok : string) (l : t) : t :=
  if contains tok l then remove tok l else (l ++ [tok])%list.

End ClassList.

(* ================================================================== *)
(** ** The document, the window and the script's globals *)
(* ================================================================== *)

(** The properties of a DOM element that the script touches.  An absent
    attribute is [None], as [getAttribute] returns [null] for it. *)
Record Element := mkElement {
  attr_id : option string;
  attr_href : option string;
  classList : ClassList.t;
  aria_expanded : option string;
  offsetTop : Z;
  offsetHeight : Z
}.

Definition set_classList (f : ClassList.t -> ClassList.t) (e : Element) : Element :=
  mkElement (attr_id e) (attr_href e) (f (classList e)) (aria_expanded e)
            (offsetTop e) (offsetHeight e).

Definition set_aria_expanded (v : string) (e : Element) : Element :=
  mkElement (attr_id e) (attr_href e) (classList e) (Some v)
            (offsetTop e) (offsetHeight e).

(** The two closures handed to [requestAnimationFrame] (lines 90-93 and
    159-161). *)
Inductive FrameCallback := CbHandleScroll | CbUpdateActiveNav.

Record Page := mkPage {
  (* the constants of lines 9-12; [None] is a [null] lookup *)
  menuToggle : option Element;
  navLinks : option Element;
  header : option Element;
  navLinkItems : list Element;
  (* document: [querySelectorAll('section[id]')], the elements that carry
     an id in tree order, [document.body.style.overflow] *)
  sections : list Element;
  byId : list Element;
  bodyOverflow : string;
  (* window, in whole pixels *)
  innerWidth : Z;
  scrollY : Z;
  scrollRequests : list Z;          (* [top] of each [window.scrollTo] *)
  (* script globals *)
  isScrolling : bool;
  resizeTimer : option nat;         (* [undefined] before the first resize *)
  (* host *)
  defaultPrevented : bool;          (* of the event being dispatched *)
  frameQueue : list FrameCallback;  (* callbacks waiting for the next frame *)
  timers : list (nat * Z);          (* pending timeouts: handle, due time *)
  nextHandle : nat;
  clock : Z;                        (* milliseconds *)
  console : list (Z * string);      (* [console.log] lines with their time *)
  uncaught : nat                    (* exceptions that escaped a listener *)
}.

Section Setters.
Variable s : Page.

Definition with_menuToggle (v : option Element) : Page :=
  mkPage v (navLinks s) (header s) (navLinkItems s) (sections s) (byId s)
    (bodyOverflow s) (innerWidth s) (scrollY s) (scrollRequests s)
    (isScrolling s) (resizeTimer s) (defaultPrevented s) (frameQueue s)
    (timers s) (nextHandle s) (clock s) (console s) (uncaught s).

Definition with_navLinks (v : option Element) : Page :=
  mkPage (menuToggle s) v (header s) (navLinkItems s) (sections s) (byId s)
    (bodyOverflow s) (innerWidth s) (scrollY s) (scrollRequests s)
    (isScrolling s) (resizeTimer s) (defaultPrevented s) (frameQueue s)
    (timers s) (nextHandle s) (clock s) (console s) (uncaught s).

Definition with_header (v : option Element) : Page :=
  mkPage (menuToggle s) (navLinks s) v (navLinkItems s) (sections s) (byId s)
    (bodyOverflow s) (innerWidth s) (scrollY s) (scrollRequests s)
    (isScrolling s) (resizeTimer s) (defaultPrevented s) (frameQueue s)
    (timers s) (nextHandle s) (clock s) (console s) (uncaught s).

Definition with_navLinkItems (v : list Element) : Page :=
  mkPage (menuToggle s) (navLinks s) (header s) v (sections s) (byId s)
    (bodyOverflow s) (innerWidth s) (scrollY s) (scrollRequests s)
    (isScrolling s) (resizeTimer s) (defaultPrevented s) (frameQueue s)
    (timers s) (nextHandle s) (clock s) (console s) (uncaught s).

Definition with_bodyOverflow (v : string) : Page :=
  mkPage (menuToggle s) (navLinks s) (header s) (navLinkItems s) (sections s)
    (byId s) v (innerWidth s) (scrollY s) (scrollRequests s)
    (isScrolling s) (resizeTimer s) (defaultPrevented s) (frameQueue s)
    (timers s) (nextHandle s) (clock s) (console s) (uncaught s).

Definition with_innerWidth (v : Z) : Page :=
  mkPage (menuToggle s) (navLinks s) (header s) (navLinkItems s) (sections s)
    (byId s) (bodyOverflow s) v (scrollY s) (scrollRequests s)
    (isScrolling s) (resizeTimer s) (defaultPrevented s) (frameQueue s)
    (timers s) (nextHandle s) (clock s) (console s) (uncaught s).

Definition with_scrollY (v : Z) : Page :=
  mkPage (menuToggle s) (navLinks s) (header s) (navLinkItems s) (sections s)
    (byId s) (bodyOverflow s) (innerWidth s) v (scrollRequests s)
    (isScrolling s) (resizeTimer s) (defaultPrevented s) (frameQueue s)
    (timers s) (nextHandle s) (clock s) (console s) (uncaught s).

Definition with_scrollRequests (v : list Z) : Page :=
  mkPage (menuToggle s) (navLinks s) (header s) (navLinkItems s) (sections s)
    (byId s) (bodyOverflow s) (innerWidth s) (scrollY s) v
    (isScrolling s) (resizeTimer s) (defaultPrevented s) (frameQueue s)
    (timers s) (nextHandle s) (clock s) (console s) (uncaught s).

Definition with_isScrolling (v : bool) : Page :=
  mkPage (menuToggle s) (navLinks s) (header s) (navLinkItems s) (sections s)
    (byId s) (bodyOverflow s) (innerWidth s) (scrollY s) (scrollRequests s)
    v (resizeTimer s) (defaultPrevented s) (frameQueue s)
    (timers s) (nextHandle s) (clock s) (console s) (uncaught s).

Definition with_resizeTimer (v : option nat) : Page :=
  mkPage (menuToggle s) (navLinks s) (header s) (navLinkItems s) (sections s)
    (byId s) (bodyOverflow s) (innerWidth s) (scrollY s) (scrollRequests s)
    (isScrolling s) v (defaultPrevented s) (frameQueue s)
    (timers s) (nextHandle s) (clock s) (console s) (uncaught s).

Definition with_defaultPrevented (v : bool) : Page :=
  mkPage (menuToggle s) (navLinks s) (header s) (navLinkItems s) (sections s)
    (byId s) (bodyOverflow s) (innerWidth s) (scrollY s) (scrollRequests s)
    (isScrolling s) (resizeTimer s) v (frameQueue s)
    (timers s) (nextHandle s) (clock s) (console s) (uncaught s).

Definition with_frameQueue (v : list FrameCallback) : Page :=
  mkPage (menuToggle s) (navLinks s) (header s) (navLinkItems s) (sections s)
    (byId s) (bodyOverflow s) (innerWidth s) (scrollY s) (scrollRequests s)
    (isScrolling s) (resizeTimer s) (defaultPrevented s) v
    (timers s) (nextHandle s) (clock s) (console s) (uncaught s).

Definition with_timers (v : list (nat * Z)) : Page :=
  mkPage (menuToggle s) (navLinks s) (header s) (navLinkItems s) (sections s)
    (byId s) (bodyOverflow s) (innerWidth s) (scrollY s) (scrollRequests s)
    (isScrolling s) (resizeTimer s) (defaultPrevented s) (frameQueue s)
    v (nextHandle s) (clock s) (console s) (uncaught s).

Definition with_nextHandle (v : nat) : Page :=
  mkPage (menuToggle s) (navLinks s) (header s) (navLinkItems s) (sections s)
    (byId s) (bodyOverflow s) (innerWidth s) (scrollY s) (scrollRequests s)
    (isScrolling s) (resizeTimer s) (defaultPrevented s) (frameQueue s)
    (timers s) v (clock s) (console s) (uncaught s).

Definition with_clock (v : Z) : Page :=
  mkPage (menuToggle s) (navLinks s) (header s) (navLinkItems s) (sections s)
    (byId s) (bodyOverflow s) (innerWidth s) (scrollY s) (scrollRequests s)
    (isScrolling s) (resizeTimer s) (defaultPrevented s) (frameQueue s)
    (timers s) (nextHandle s) v (console s) (uncaught s).

Definition with_console (v : list (Z * string)) : Page :=
  mkPage (menuToggle s) (navLinks s) (header s) (navLinkItems s) (sections s)
    (byId s) (bodyOverflow s) (innerWidth s) (scrollY s) (scrollRequests s)
    (isScrolling s) (resizeTimer s) (defaultPrevented s) (frameQueue s)
    (timers s) (nextHandle s) (clock s) v (uncaught s).

Definition with_uncaught (v : nat) : Page :=
  mkPage (menuToggle s) (navLinks s) (header s) (navLinkItems s) (sections s)
    (byId s) (bodyOverflow s) (innerWidth s) (scrollY s) (scrollRequests s)
    (isScrolling s) (resizeTimer s) (defaultPrevented s) (frameQueue s)
    (timers s) (nextHandle s) (clock s) (console s) v.
End Setters.

(* ================================================================== *)
(** ** Computations: state that survives an exception *)
(* ================================================================== *)

(** A JavaScript exception does not roll back the mutations made before
    it, so a computation returns the page together with its outcome. *)
Inductive outcome (A : Type) : Type :=
| Normal (a : A)
| Throw.                       (* an uncaught TypeError *)
Arguments Normal {A} a.
Arguments Throw {A}.

Definition JS (A : Type) : Type := Page -> outcome A * Page.

Definition ret {A} (a : A) : JS A := fun s => (Normal a, s).

Definition bind {A B} (c : JS A) (k : A -> JS B) : JS B :=
  fun s =>
    match c s with
    | (Normal a, s') => k a s'
    | (Throw, s') => (Throw, s')
    end.

Declare Scope js_scope.
Delimit Scope js_scope with js.
Notation "x <- c ;; k" := (bind c (fun x => k))
  (at level 61, c at next level, right associativity) : js_scope.
Notation "c ;; k" := (bind c (fun _ => k))
  (at level 61, right associativity) : js_scope.
Open Scope js_scope.

Definition throw {A} : JS A := fun s => (Throw, s).
Definition gets {A} (f : Page -> A) : JS A := fun s => (Normal (f s), s).
Definition modify (f : Page -> Page) : JS unit := fun s => (Normal tt, f s).

(** Reading a property of a possibly [null] reference. *)
Definition deref {A} (o : option A) : JS A :=
  match o with
  | Some a => ret a
  | None => throw
  end.

(** [when b c] is [if (b) { c }]. *)
Definition when (b : bool) (c : JS unit) : JS unit :=
  if b then c else ret tt.

(** A method call that mutates the element a constant is bound to. *)
Definition on_navLinks (f : Element -> Element) : JS unit :=
  e <- (fun s => deref (navLinks s) s) ;;
  modify (fun s => with_navLinks s (Some (f e))).

Definition on_menuToggle (f : Element -> Element) : JS unit :=
  e <- (fun s => deref (menuToggle s) s) ;;
  modify (fun s => with_menuToggle s (Some (f e))).

Definition on_header (f : Element -> Element) : JS unit :=
  e <- (fun s => deref (header s) s) ;;
  modify (fun s => with_header s (Some (f e))).

(** [navLinks.classList.contains('active')] *)
Definition navLinks_is_active : JS bool :=
  e <- (fun s => deref (navLinks s) s) ;;
  ret (ClassList.contains "active" (classList e)).

(** [String(b)], the conversion [setAttribute] applies to a boolean. *)
Definition string_of_bool (b : bool) : string :=
  if b then "true" else "false".

(* ================================================================== *)
(** ** Mobile menu toggle (lines 20-44) *)
(* ================================================================== *)

Definition toggleMenu : JS unit :=
  on_navLinks (set_classList (ClassList.toggle "active")) ;;
  on_menuToggle (set_classList (ClassList.toggle "active")) ;;
  isExpanded <- navLinks_is_active ;;
  on_menuToggle (set_aria_expanded (string_of_bool isExpanded)) ;;
  if isExpanded
  then modify (fun s => with_bodyOverflow s "hidden")
  else modify (fun s => with_bodyOverflow s "").

Definition closeMenu : JS unit :=
  on_navLinks (set_classList (ClassList.remove "active")) ;;
  on_menuToggle (set_classList (ClassList.remove "active")) ;;
  on_menuToggle (set_aria_expanded "false") ;;
  modify (fun s => with_bodyOverflow s "").

(* ================================================================== *)
(** ** Click listeners (lines 47-70 and 105-128) *)
(* ================================================================== *)

(** What a click listener can learn from [e.target]: the anchor of
    [navLinkItems] the target lies in (listeners on an anchor also run
    for clicks on its descendants), and the answers of the two
    [contains] calls of the document listener. *)
Record ClickTarget := mkTarget {
  on_link : option nat;
  in_navLinks : bool;
  in_menuToggle : bool
}.

(** Lines 53-57. *)
Definition linkClickClose : JS unit :=
  w <- gets innerWidth ;;
  when (w <=? 768) closeMenu.

(** Lines 61-70.  [contains] is a method call, so it needs its receiver
    before it looks at the target; [&&] evaluates left to right. *)
Definition documentClick (t : ClickTarget) : JS unit :=
  w <- gets innerWidth ;;
  when (w <=? 768)
    (_ <- (fun s => deref (navLinks s) s) ;;
     let isClickInsideNav := in_navLinks t in
     _ <- (fun s => deref (menuToggle s) s) ;;
     let isClickOnToggle := in_menuToggle t in
     c <- (if negb isClickInsideNav && negb isClickOnToggle
           then navLinks_is_active else ret false) ;;
     when c closeMenu).

(** [document.getElementById]: the first element in tree order with that
    id; an empty id names no element. *)
Definition has_id (i : string) (e : Element) : bool :=
  match attr_id e with
  | Some j => String.eqb i j
  | None => false
  end.

Definition getElementById (i : string) (els : list Element) : option Element :=
  if String.eqb i "" then None else find (has_id i) els.

(** [href.startsWith('#')] and [href.substring(1)]. *)
Definition startsWith (p s : string) : bool := String.prefix p s.

Definition substring1 (s : string) : string :=
  match s with
  | EmptyString => EmptyString
  | String _ rest => rest
  end.

Definition preventDefault : JS unit :=
  modify (fun s => with_defaultPrevented s true).

Definition scrollTo (top : Z) : JS unit :=
  modify (fun s => with_scrollRequests s (scrollRequests s ++ [top])%list).

(** Lines 106-127, for the anchor [link] the listener was added to. *)
Definition smoothScrollClick (link : Element) : JS unit :=
  href <- (fun s => deref (attr_href link) s) ;;
  when (startsWith "#" href)
    (let targetId := substring1 href in
     targetElement <- gets (fun s => getElementById targetId (byId s)) ;;
     match targetElement with
     | Some target =>
         preventDefault ;;
         h <- (fun s => deref (header s) s) ;;
         let headerHeight := offsetHeight h in
         let targetPosition := offsetTop target - headerHeight in
         scrollTo targetPosition
     | None => ret tt
     end).

(* ================================================================== *)
(** ** Scroll effects (lines 78-96 and 136-163) *)
(* ================================================================== *)

Definition handleScroll : JS unit :=
  y <- gets scrollY ;;
  if 100 <? y
  then on_header (set_classList (ClassList.add "scrolled"))
  else on_header (set_classList (ClassList.remove "scrolled")).

Definition requestAnimationFrame (cb : FrameCallback) : JS unit :=
  modify (fun s => with_frameQueue s (frameQueue s ++ [cb])%list).

(** The listener of lines 88-96. *)
Definition scrollListenerHeader : JS unit :=
  b <- gets isScrolling ;;
  when (negb b)
    (requestAnimationFrame CbHandleScroll ;;
     modify (fun s => with_isScrolling s true)).

(** The template literal [`#${sectionId}`]. *)
Definition hash_of (sectionId : option string) : string :=
  "#" ++ match sectionId with Some i => i | None => "null" end.

(** [link.getAttribute('href') === str] *)
Definition href_is (str : string) (link : Element) : bool :=
  match attr_href link with
  | Some h => String.eqb h str
  | None => false
  end.

(** The body of the inner [forEach] (lines 147-150). *)
Definition mark_link (sectionId : option string) (link : Element) : Element :=
  let link' := set_classList (ClassList.remove "active") link in
  if href_is (hash_of sectionId) link'
  then set_classList (ClassList.add "active") link'
  else link'.

Fixpoint forEach {A} (l : list A) (body : A -> JS unit) : JS unit :=
  match l with
  | [] => ret tt
  | x :: r => body x ;; forEach r body
  end.

(** The test of line 145. *)
Definition span_contains (scrollPos : Z) (section : Element) : bool :=
  let sectionTop := offsetTop section in
  let sectionHeight := offsetHeight section in
  (sectionTop <=? scrollPos) && (scrollPos <? sectionTop + sectionHeight).

Definition updateActiveNav : JS unit :=
  secs <- gets sections ;;
  y <- gets scrollY ;;
  let scrollPos := y + 150 in
  forEach secs (fun section =>
    let sectionId := attr_id section in
    when (span_contains scrollPos section)
      (modify (fun s =>
         with_navLinkItems s (map (mark_link sectionId) (navLinkItems s))))).

(** The listener of lines 157-163. *)
Definition scrollListenerNav : JS unit :=
  b <- gets isScrolling ;;
  when (negb b) (requestAnimationFrame CbUpdateActiveNav).

Definition run_callback (cb : FrameCallback) : JS unit :=
  match cb with
  | CbHandleScroll => handleScroll ;; modify (fun s => with_isScrolling s false)
  | CbUpdateActiveNav => updateActiveNav
  end.

(* ================================================================== *)
(** ** Resize and keyboard (lines 203-215 and 246-250) *)
(* ================================================================== *)

Definition clearTimeout (h : option nat) : JS unit :=
  match h with
  | Some n =>
      modify (fun s =>
        with_timers s (filter (fun t => negb (Nat.eqb (fst t) n)) (timers s)))
  | None => ret tt
  end.

(** The only timeout of the script is the diagnostic of line 213, so a
    pending timeout is its handle and the time it is due. *)
Definition setTimeout (delay : Z) : JS nat :=
  fun s =>
    let h := nextHandle s in
    (Normal h,
     with_nextHandle
       (with_timers s (timers s ++ [(h, clock s + delay)])%list) (S h)).

Definition resizeListener : JS unit :=
  w <- gets innerWidth ;;
  c <- (if 768 <? w then navLinks_is_active else ret false) ;;
  when c closeMenu ;;
  old <- gets resizeTimer ;;
  clearTimeout old ;;
  h <- setTimeout 250 ;;
  modify (fun s => with_resizeTimer s (Some h)).

Definition keydownListener (key : string) : JS unit :=
  c <- (if String.eqb key "Escape" then navLinks_is_active else ret false) ;;
  when c closeMenu.

(* ================================================================== *)
(** ** The host: dispatch, frames and timers *)
(* ================================================================== *)

Inductive Event :=
| Click (t : ClickTarget)
| Scroll (y : Z)               (* the window has scrolled to [y] *)
| AnimationFrame
| Resize (w : Z)               (* the window now has width [w] *)
| KeyDown (key : string)
| Elapse (ms : Z).             (* [ms] milliseconds pass *)

(** An exception that escapes a listener is reported and the dispatch
    goes on with the next listener. *)
Definition run_listener (c : JS unit) (s : Page) : Page :=
  match c s with
  | (Normal _, s') => s'
  | (Throw, s') => with_uncaught s' (S (uncaught s'))
  end.

(** Listeners of a click in bubbling order: the two on the anchor in the
    order they were added, the one on the toggle (added only when the
    toggle exists, line 47), the one on the document. *)
Definition click_listeners (t : ClickTarget) (s : Page) : list (JS unit) :=
  (match on_link t with
   | Some i =>
       match nth_error (navLinkItems s) i with
       | Some link => [linkClickClose; smoothScrollClick link]
       | None => []
       end
   | None => []
   end
   ++ (match menuToggle s with
       | Some _ => if in_menuToggle t then [toggleMenu] else []
       | None => []
       end)
   ++ [documentClick t])%list.

Definition run_listeners (ls : list (JS unit)) (s : Page) : Page :=
  fold_left (fun acc l => run_listener l acc) ls s.

(** The pending timeout that is due first (the older one on a tie). *)
Fixpoint earliest (l : list (nat * Z)) : option (nat * Z) :=
  match l with
  | [] => None
  | t :: r =>
      match earliest r with
      | Some t' => if snd t' <? snd t then Some t' else Some t
      | None => Some t
      end
  end.

(** Line 213 running at the time its timeout is due. *)
Definition fire (t : nat * Z) (s : Page) : Page :=
  let s1 := with_timers s (filter (fun u => negb (Nat.eqb (fst u) (fst t))) (timers s)) in
  let s2 := with_clock s1 (snd t) in
  with_console s2 (console s2 ++ [(snd t, "Window resized")])%list.

Fixpoint run_timers (fuel : nat) (until : Z) (s : Page) : Page :=
  match fuel with
  | O => s
  | S n =>
      match earliest (timers s) with
      | Some t => if snd t <=? until then run_timers n until (fire t s) else s
      | None => s
      end
  end.

Definition elapse (ms : Z) (s : Page) : Page :=
  let until := clock s + ms in
  with_clock (run_timers (length (timers s)) until s) until.

Definition step (ev : Event) (s : Page) : Page :=
  match ev with
  | Click t =>
      let s0 := with_defaultPrevented s false in
      run_listeners (click_listeners t s0) s0
  | Scroll y =>
      run_listeners [scrollListenerHeader; scrollListenerNav] (with_scrollY s y)
  | AnimationFrame =>
      run_listeners (map run_callback (frameQueue s)) (with_frameQueue s [])
  | Resize w =>
      run_listeners [resizeListener] (with_innerWidth s w)
  | KeyDown key =>
      run_listeners [keydownListener key] s
  | Elapse ms => elapse ms s
  end.

Definition run (evs : list Event) (s : Page) : Page :=
  fold_left (fun acc ev => step ev acc) evs s.

(* ================================================================== *)
(** ** What an observer sees of the menu *)
(* ================================================================== *)

Definition has_active (e : Element) : bool :=
  ClassList.contains "active" (classList e).

(** The menu-open flag as the script reads it (lines 25, 66, 206, 247). *)
Definition nav_active (s : Page) : bool :=
  match navLinks s with
  | Some e => has_active e
  | None => false
  end.

Definition toggle_active (s : Page) : bool :=
  match menuToggle s with
  | Some e => has_active e
  | None => false
  end.

Definition toggle_aria (s : Page) : option string :=
  match menuToggle s with
  | Some e => aria_expanded e
  | None => None
  end.

(** Classes, [aria-expanded] and the body scroll lock. *)
Definition menu_view (s : Page) : bool * bool * option string * string :=
  (nav_active s, toggle_active s, toggle_aria s, bodyOverflow s).

(** Both elements of the menu are in the document. *)
Definition menu_present (s : Page) : Prop :=
  navLinks s <> None /\ menuToggle s <> None.

(** The side effects agree with the flag. *)
Definition menu_synced (s : Page) : Prop :=
  toggle_aria s = Some (string_of_bool (nav_active s)) /\
  bodyOverflow s = (if nav_active s then "hidden" else "").

(** The invariant of the data model: never open without
    [aria-expanded="true"] and the scroll lock, never closed with
    either of them in effect. *)
Definition sync_invariant (s : Page) : Prop :=
  (nav_active s = true ->
     toggle_aria s = Some "true" /\ bodyOverflow s = "hidden") /\
  (nav_active s = false ->
     toggle_aria s <> Some "true" /\ bodyOverflow s <> "hidden").

(** The state [closeMenu] forces. *)
Definition menu_closed (s : Page) : Prop :=
  nav_active s = false /\ toggle_active s = false /\
  toggle_aria s = Some "false" /\ bodyOverflow s = "".

(** [keeps f s s']: the part [f] of the page is the same in [s'] as in
    [s]; a computation preserves [f] when it keeps it from every page,
    whether it returns or throws. *)
Definition keeps {A} (f : Page -> A) (s s' : Page) : Prop := f s' = f s.

Definition preserves {A B} (f : Page -> B) (c : JS A) : Prop :=
  forall s, keeps f s (snd (c s)).

(** The fields a menu operation may write, and all the others but the
    count of uncaught exceptions. *)
Definition menu_of (s : Page) :=
  (navLinks s, menuToggle s, bodyOverflow s).

Definition outside_of (s : Page) :=
  (header s, navLinkItems s, sections s, byId s, innerWidth s, scrollY s,
   scrollRequests s, isScrolling s, resizeTimer s, defaultPrevented s,
   frameQueue s, timers s, nextHandle s, clock s, console s).

Definition same_menu : Page -> Page -> Prop := keeps menu_of.
Definition same_outside_menu : Page -> Page -> Prop := keeps outside_of.

(** The page with the three menu fields replaced. *)
Definition set_menu (nl mt : Element) (ov : string) (s : Page) : Page :=
  with_bodyOverflow (with_menuToggle (with_navLinks s (Some nl)) (Some mt)) ov.

(** The elements [toggleMenu] and [closeMenu] leave behind. *)
Definition toggled (e : Element) : Element :=
  set_classList (ClassList.toggle "active") e.

Definition deactivated (e : Element) : Element :=
  set_classList (ClassList.remove "active") e.

(* ================================================================== *)
(** ** A page to run the script on *)
(* ================================================================== *)

Module Example.

Definition toggleButton : Element :=
  mkElement (Some "menuToggle") None ["menu-toggle"] (Some "false") 20 40.

Definition navPanel : Element :=
  mkElement (Some "navLinks") None ["nav-links"] None 0 80.

Definition headerBar : Element :=
  mkElement (Some "header") None ["header"] None 0 80.

Definition anchor (h : string) : Element :=
  mkElement None (Some h) [] None 0 20.

Definition sectionAt (i : string) (top height : Z) : Element :=
  mkElement (Some i) None ["section"] None top height.

Definition homeSection := sectionAt "home" 0 600.
Definition aboutSection := sectionAt "about" 600 500.
Definition menuSection := sectionAt "menu" 1100 700.

Definition links : list Element :=
  [anchor "#home"; anchor "#about"; anchor "#menu"; anchor "#missing"].

Definition allSections : list Element :=
  [homeSection; aboutSection; menuSection].

(** The page after load on a desktop window, scrolled to the top. *)
Definition page : Page :=
  mkPage (Some toggleButton) (Some navPanel) (Some headerBar) links
    allSections (headerBar :: toggleButton :: navPanel :: allSections)
    "" 1024 0 [] false None false [] [] 1%nat 0 [] 0%nat.

(** The same page on a phone. *)
Definition phone : Page := with_innerWidth page 400.

(** The phone page with the menu opened by one click on the toggle. *)
Definition phoneOpen : Page := step (Click (mkTarget None false true)) phone.

(** Markup whose toggle carries no [aria-expanded] attribute. *)
Definition pageNoAria : Page :=
  with_menuToggle page
    (Some (mkElement (Some "menuToggle") None ["menu-toggle"] None 20 40)).

(** Markup without the toggle control. *)
Definition phoneNoToggle : Page := with_menuToggle phone None.

(** Markup without the header element. *)
Definition pageNoHeader : Page := with_header page None.

(** Markup without the link panel. *)
Definition pageNoPanel : Page := with_navLinks page None.

End Example.

(** Lines 211-214 of the resize listener on their own. *)
Definition rearm : JS unit :=
  old <- gets resizeTimer ;;
  clearTimeout old ;;
  h <- setTimeout 250 ;;
  modify (fun s => with_resizeTimer s (Some h)).

(** The menu is whole and its side effects follow the flag. *)
Definition menu_ok (s : Page) : Prop :=
  menu_present s /\ sync_invariant s.

(* ================================================================== *)
(** ** What the claims about the highlight speak of *)
(* ================================================================== *)

(** The position line 145 compares with. *)
Definition scrollPos (s : Page) : Z := scrollY s + 150.

(** No position lies in the spans of two sections. *)
Definition non_overlapping (secs : list Element) : Prop :=
  forall i j a b pos,
    nth_error secs i = Some a -> nth_error secs j = Some b -> i <> j ->
    span_contains pos a = true -> span_contains pos b = true -> False.

(** The link's href names the section. *)
Definition names (section link : Element) : Prop :=
  attr_href link = Some (hash_of (attr_id section)).

Definition count_active (links : list Element) : nat :=
  length (filter has_active links).

(** A link after a run: same href, marked exactly when it names [section]. *)
Definition marked_for (section link link' : Element) : Prop :=
  attr_href link' = attr_href link /\
  (has_active link' = true <-> names section link).

(** The link lists the loop of lines 140-153 steps through. *)
Definition highlight (pos : Z) (secs links : list Element) : list Element :=
  fold_left
    (fun ls section =>
       if span_contains pos section
       then map (mark_link (attr_id section)) ls else ls)
    secs links.

Module Overlap.
(** Two sections that share the positions 500 to 599. *)
Definition first := Example.sectionAt "home" 0 600.
Definition second := Example.sectionAt "about" 500 500.
Definition page : Page :=
  mkPage (Some Example.toggleButton) (Some Example.navPanel)
    (Some Example.headerBar) Example.links [first; second] [first; second]
    "" 1024 400 [] false None false [] [] 1%nat 0 [] 0%nat.
End Overlap.

(** The example page after one highlight run at the top, then scrolled
    below the last section. *)
Definition scrolled_past : Page :=
  with_scrollY (snd (updateActiveNav Example.page)) 2000.

(** A click on something that is neither a navigation anchor nor the
    toggle, outside the panel: a link in the page body or the footer. *)
Definition elsewhere : ClickTarget := mkTarget None false false.

(** The guard of the document's click listener (lines 62 and 66). *)
Definition closes_on_click (t : ClickTarget) (s : Page) : bool :=
  (innerWidth s <=? 768) && negb (in_navLinks t) && negb (in_menuToggle t)
  && nav_active s.

(** The link list together with the frame callbacks still to run. *)
Definition links_of (s : Page) := (navLinkItems s, frameQueue s).

(** The example page scrolled into its second section, and one frame
    later. *)
Definition after_scroll : Page := run [Scroll 700; AnimationFrame] Example.page.

(* ================================================================== *)
(** ** What the claims about the resize debounce speak of *)
(* ================================================================== *)

(** At most one timeout is pending, and it is the one [resizeTimer]
    holds. *)
Definition timer_invariant (s : Page) : Prop :=
  timers s = [] \/
  exists h due, timers s = [(h, due)] /\ resizeTimer s = Some h.

(** The rest of a burst: each further resize comes [gap] milliseconds
    after the one before it. *)
Fixpoint burst (rest : list (Z * Z)) : list Event :=
  match rest with
  | [] => []
  | (gap, w) :: r => Elapse gap :: Resize w :: burst r
  end.

Definition total_gap (rest : list (Z * Z)) : Z :=
  fold_right (fun p acc => fst p + acc) 0 rest.

(** Every gap of the burst is shorter than the debounce delay. *)
Definition rapid (rest : list (Z * Z)) : Prop :=
  Forall (fun p => 0 <= fst p < 250) rest.

(** The state right after a resize listener has run: its timeout is the
    only one pending and is due 250ms from now. *)
Definition armed (s : Page) : Prop :=
  exists h, timers s = [(h, clock s + 250)] /\ resizeTimer s = Some h.

(** Lines 205-208 of the resize listener on their own. *)
Definition resize_close : JS unit :=
  w <- gets innerWidth ;;
  c <- (if 768 <? w then navLinks_is_active else ret false) ;;
  when c closeMenu.

(** What the debounce reads and writes. *)
Definition debounce_of (s : Page) :=
  (timers s, resizeTimer s, nextHandle s, clock s, console s).

(** A click inside the second navigation anchor of the example page. *)
Definition on_about_link : ClickTarget := mkTarget (Some 1%nat) true false.

(* ================================================================== *)
(** ** What the claims about absent elements speak of *)
(* ================================================================== *)

(** The document the script is written for: toggle, panel and header
    exist and every navigation anchor has an href. *)
Definition complete (s : Page) : Prop :=
  menu_present s /\ header s <> None /\
  ~ In None (map attr_href (navLinkItems s)).

(** A listener that, on a complete document, returns normally and leaves
    the document complete. *)
Definition safe (c : JS unit) : Prop :=
  forall s, complete s -> exists s', c s = (Normal tt, s') /\ complete s'.

(** The desktop example page without its toggle control. *)
Definition desktopNoToggle : Page := with_menuToggle Example.page None.

(* ================================================================== *)
(** ** What the further properties speak of *)
(* ================================================================== *)

(** The throttle flag is raised exactly while the header update waits
    for its frame, and nothing else waits. *)
Definition throttle_invariant (s : Page) : Prop :=
  (isScrolling s = false /\ frameQueue s = []) \/
  (isScrolling s = true /\ frameQueue s = [CbHandleScroll]).

(** The throttle state. *)
Definition throttle_of (s : Page) := (isScrolling s, frameQueue s).

(** The header carries the [scrolled] class. *)
Definition header_scrolled (s : Page) : bool :=
  match header s with
  | Some h => ClassList.contains "scrolled" (classList h)
  | None => false
  end.

(** A link after a highlight run next to the link before it: nothing but
    its [active] class may differ. *)
Definition same_but_active (link link' : Element) : Prop :=
  attr_id link' = attr_id link /\ attr_href link' = attr_href link /\
  aria_expanded link' = aria_expanded link /\
  offsetTop link' = offsetTop link /\ offsetHeight link' = offsetHeight link /\
  forall c, c <> "active" ->
    ClassList.contains c (classList link') = ClassList.contains c (classList link).

(** A click on the toggle button. *)
Definition on_toggle : ClickTarget := mkTarget None false true.

(** The anchor's href is absent or does not start with [#]. *)
Definition not_fragment (link : Element) : Prop :=
  match attr_href link with
  | Some href => startsWith "#" href = false
  | None => True
  end.

(* ================================================================== *)
(** ** External links (lines 233-238) *)
(* ================================================================== *)

Module ExternalLinks.

(** The two attributes of an anchor the loop looks at. *)
Record Anchor := mkAnchor {
  attr_target : option string;
  attr_rel : option string
}.

Definition lower_ascii (c : Ascii.ascii) : Ascii.ascii :=
  let n := Ascii.nat_of_ascii c in
  if ((65 <=? n) && (n <=? 90))%nat then Ascii.ascii_of_nat (n + 32) else c.

Fixpoint lower (s : string) : string :=
  match s with
  | EmptyString => EmptyString
  | String c r => String (lower_ascii c) (lower r)
  end.

(** The selector [a[target="_blank"]]; in an HTML document the value of
    [target] is compared without regard to ASCII case. *)
Definition selected (a : Anchor) : bool :=
  match attr_target a with
  | Some t => String.eqb (lower t) "_blank"
  | None => false
  end.

(** [link.hasAttribute('rel')]: an empty value is an attribute too. *)
Definition hasAttribute_rel (a : Anchor) : bool :=
  match attr_rel a with
  | Some _ => true
  | None => false
  end.

(** The body of the loop (lines 235-237). *)
Definition secure (a : Anchor) : Anchor :=
  if negb (hasAttribute_rel a)
  then mkAnchor (attr_target a) (Some "noopener noreferrer")
  else a.

(** The loop over the selected anchors, as it acts on all the anchors of
    the document in tree order. *)
Definition harden (anchors : list Anchor) : list Anchor :=
  map (fun a => if selected a then secure a else a) anchors.

End ExternalLinks.

(* ================================================================== *)
(** ** The visibility animator (lines 171-195) *)
(* ================================================================== *)

Module Reveal.

(** The three style properties the script writes. *)
Record Style := mkStyle {
  opacity : string;
  transform : string;
  transition : string
}.

(** Lines 190-192, for one element of [animateElements]. *)
Definition hide (st : Style) : Style :=
  mkStyle "0" "translateY(30px)" "opacity 0.6s ease, transform 0.6s ease".

(** Lines 179-180. *)
Definition show (st : Style) : Style :=
  mkStyle "1" "translateY(0)" (transition st).

(** An observer entry: its target, as the position of the element among
    the observed ones, and [isIntersecting]. *)
Record Entry := mkEntry {
  target : nat;
  isIntersecting : bool
}.

Fixpoint style_at (i : nat) (f : Style -> Style) (els : list Style) : list Style :=
  match els, i with
  | [], _ => []
  | e :: r, O => f e :: r
  | e :: r, S j => e :: style_at j f r
  end.

(** The observer's callback (lines 176-183). *)
Definition observerCallback (entries : list Entry) (els : list Style) : list Style :=
  fold_left
    (fun acc entry =>
       if isIntersecting entry then style_at (target entry) show acc else acc)
    entries els.

(** The [DOMContentLoaded] listener (lines 186-195); every element it
    styles is handed to the observer. *)
Definition domContentLoaded (els : list Style) : list Style := map hide els.

(** The page after load and a series of callbacks. *)
Definition after (batches : list (list Entry)) (els : list Style) : list Style :=
  fold_left (fun acc entries => observerCallback entries acc) batches
    (domContentLoaded els).

(** Some entry so far reported element [i] as intersecting. *)
Definition seen (i : nat) (entries : list Entry) : bool :=
  existsb (fun e => isIntersecting e && Nat.eqb (target e) i) entries.

Definition hidden : Style := hide (mkStyle "" "" "").
Definition revealed : Style := show hidden.

End Reveal.

(* ================================================================== *)
(** ** The [debounce] utility (lines 290-300) *)
(* ================================================================== *)

Module Debounce.

Section WithArgs.

(** The argument list of one call. *)
Variable Args : Type.

(** The closure's [timeout] variable, the host's pending timeouts (handle,
    due time, the [args] the [later] closure captured), and the calls of
    [func] made so far with their time. *)
Record State := mkState {
  timeout : option nat;
  pending : list (nat * Z * Args);
  next : nat;
  now : Z;
  calls : list (Z * Args)
}.

Definition handle_of (t : nat * Z * Args) : nat := fst (fst t).
Definition due_of (t : nat * Z * Args) : Z := snd (fst t).

Definition cancel (h : option nat) (st : State) : State :=
  match h with
  | Some n =>
      mkState (timeout st)
        (filter (fun t => negb (Nat.eqb (handle_of t) n)) (pending st))
        (next st) (now st) (calls st)
  | None => st
  end.

(** [executedFunction(...args)] (lines 292-299); a negative delay counts
    as zero. *)
Definition executedFunction (wait : Z) (args : Args) (st : State) : State :=
  let st1 := cancel (timeout st) st in
  let h := next st1 in
  mkState (Some h) (pending st1 ++ [(h, now st1 + Z.max 0 wait, args)])%list
    (S h) (now st1) (calls st1).

(** [later] (lines 293-296). *)
Definition later (args : Args) (st : State) : State :=
  let st1 := cancel (timeout st) st in
  mkState (timeout st1) (pending st1) (next st1) (now st1)
    (calls st1 ++ [(now st1, args)])%list.

Fixpoint first_due (l : list (nat * Z * Args)) : option (nat * Z * Args) :=
  match l with
  | [] => None
  | t :: r =>
      match first_due r with
      | Some t' => if due_of t' <? due_of t then Some t' else Some t
      | None => Some t
      end
  end.

(** The host runs a timeout at the time it is due. *)
Definition expire (t : nat * Z * Args) (st : State) : State :=
  later (snd t)
    (mkState (timeout st)
       (filter (fun u => negb (Nat.eqb (handle_of u) (handle_of t))) (pending st))
       (next st) (due_of t) (calls st)).

Fixpoint expire_until (fuel : nat) (until : Z) (st : State) : State :=
  match fuel with
  | O => st
  | S n =>
      match first_due (pending st) with
      | Some t => if due_of t <=? until then expire_until n until (expire t st) else st
      | None => st
      end
  end.

Definition wait_for (ms : Z) (st : State) : State :=
  let until := now st + ms in
  let st1 := expire_until (length (pending st)) until st in
  mkState (timeout st1) (pending st1) (next st1) until (calls st1).

(** Further calls of a burst, each [gap] milliseconds after the one
    before. *)
Fixpoint more_calls (wait : Z) (rest : list (Z * Args)) (st : State) : State :=
  match rest with
  | [] => st
  | (gap, args) :: r =>
      more_calls wait r (executedFunction wait args (wait_for gap st))
  end.

Definition last_args (first : Args) (rest : list (Z * Args)) : Args :=
  last (map snd rest) first.

Definition gaps (rest : list (Z * Args)) : Z :=
  fold_right (fun p acc => fst p + acc) 0 rest.

(** Nothing is pending but, at most, the timeout the closure holds. *)
Definition idle_or_held (st : State) : Prop :=
  pending st = [] \/
  exists h due args, pending st = [(h, due, args)] /\ timeout st = Some h.

(** Right after a call: its timeout is the only one, due one delay from
    now, and holds the arguments of that call. *)
Definition armed (wait : Z) (args : Args) (st : State) : Prop :=
  exists h,
    pending st = [(h, now st + Z.max 0 wait, args)] /\ timeout st = Some h.

End WithArgs.

End Debounce.
(* ================================================================== *)
(** ** Facts about class lists *)
(* ================================================================== *)

Module ClassListFacts.
Import ClassList.

Lemma contains_app tok l1 l2 :
  contains tok (l1 ++ l2)%list = contains tok l1 || contains tok l2.
Proof. unfold contains. apply existsb_app. Qed.

Lemma contains_remove_same tok l : contains tok (remove tok l) = false.
Proof.
  induction l as [|c l IH]; simpl; [reflexivity|].
  destruct (String.eqb tok c) eqn:E; simpl; [exact IH|].
  rewrite E. exact IH.
Qed.

Lemma contains_remove_other c tok l :
  c <> tok -> contains c (remove tok l) = contains c l.
Proof.
  intros Hne. induction l as [|x l IH]; simpl; [reflexivity|].
  destruct (String.eqb tok x) eqn:E; simpl.
  - apply String.eqb_eq in E. subst x.
    destruct (String.eqb c tok) eqn:E'.
    + apply String.eqb_eq in E'. contradiction.
    + exact IH.
  - rewrite IH. reflexivity.
Qed.

Lemma remove_absent tok l : contains tok l = false -> remove tok l = l.
Proof.
  induction l as [|c l IH]; simpl; [reflexivity|].
  intros H. apply orb_false_iff in H. destruct H as [H1 H2].
  rewrite H1. simpl. rewrite IH by assumption. reflexivity.
Qed.

Lemma remove_app tok l1 l2 :
  remove tok (l1 ++ l2)%list = (remove tok l1 ++ remove tok l2)%list.
Proof. unfold remove. apply filter_app. Qed.

Lemma remove_idem tok l : remove tok (remove tok l) = remove tok l.
Proof. apply remove_absent, contains_remove_same. Qed.

Lemma remove_single tok : remove tok [tok] = [].
Proof. simpl. rewrite String.eqb_refl. reflexivity. Qed.

Lemma contains_single tok : contains tok [tok] = true.
Proof. simpl. rewrite String.eqb_refl. reflexivity. Qed.

Lemma contains_toggle tok l : contains tok (toggle tok l) = negb (contains tok l).
Proof.
  unfold toggle. destruct (contains tok l) eqn:E.
  - apply contains_remove_same.
  - rewrite contains_app, E, contains_single. reflexivity.
Qed.

Lemma contains_toggle_other c tok l :
  c <> tok -> contains c (toggle tok l) = contains c l.
Proof.
  intros Hne. unfold toggle. destruct (contains tok l).
  - apply contains_remove_other. exact Hne.
  - rewrite contains_app. simpl.
    destruct (String.eqb c tok) eqn:E.
    + apply String.eqb_eq in E. contradiction.
    + rewrite !orb_false_r. reflexivity.
Qed.

(** Two toggles give back every token's membership. *)
Lemma contains_toggle_toggle c tok l :
  contains c (toggle tok (toggle tok l)) = contains c l.
Proof.
  destruct (String.eqb c tok) eqn:E.
  - apply String.eqb_eq in E. subst c.
    rewrite !contains_toggle. apply negb_involutive.
  - apply String.eqb_neq in E. rewrite !contains_toggle_other by exact E.
    reflexivity.
Qed.

Lemma contains_add tok l : contains tok (add tok l) = true.
Proof.
  unfold add. destruct (contains tok l) eqn:E; [exact E|].
  rewrite contains_app, contains_single. apply orb_true_r.
Qed.

(** What the inner loop of [updateActiveNav] does to a class list is
    forgotten by the next removal. *)
Lemma remove_add_remove tok l :
  remove tok (add tok (remove tok l)) = remove tok l.
Proof.
  unfold add. rewrite contains_remove_same.
  rewrite remove_app, remove_idem, remove_single. apply app_nil_r.
Qed.

End ClassListFacts.


(* ================================================================== *)
(** ** The menu: what [toggleMenu] and [closeMenu] compute *)
(* ================================================================== *)

Ltac js_unfold :=
  unfold toggleMenu, closeMenu, on_navLinks, on_menuToggle, on_header,
    navLinks_is_active, when, bind, ret, deref, throw, gets, modify in *.

Section MenuRuns.
Import ClassListFacts.
Variables (s : Page) (nl mt : Element).
Hypothesis Hnl : navLinks s = Some nl.
Hypothesis Hmt : menuToggle s = Some mt.

Lemma toggleMenu_run :
  toggleMenu s =
    (Normal tt,
     set_menu (toggled nl)
              (set_aria_expanded (string_of_bool (negb (has_active nl))) (toggled mt))
              (if negb (has_active nl) then "hidden" else "") s).
Proof.
  destruct s; simpl in *; subst. js_unfold; simpl.
  unfold has_active. fold (ClassList.contains "active" (ClassList.toggle "active" (classList nl))).
  rewrite contains_toggle.
  all: destruct (ClassList.contains "active" (classList nl)); reflexivity.
Qed.

Lemma closeMenu_run :
  closeMenu s =
    (Normal tt,
     set_menu (deactivated nl) (set_aria_expanded "false" (deactivated mt)) "" s).
Proof. destruct s; simpl in *; subst. reflexivity. Qed.

End MenuRuns.

Lemma keeps_refl {A} (f : Page -> A) s : keeps f s s.
Proof. reflexivity. Qed.

Lemma keeps_trans {A} (f : Page -> A) s1 s2 s3 :
  keeps f s1 s2 -> keeps f s2 s3 -> keeps f s1 s3.
Proof. unfold keeps. congruence. Qed.

Lemma same_menu_fields s s' :
  same_menu s s' ->
  navLinks s' = navLinks s /\ menuToggle s' = menuToggle s /\
  bodyOverflow s' = bodyOverflow s.
Proof.
  unfold same_menu, keeps, menu_of. intros H. injection H as A B C. auto.
Qed.

Lemma same_menu_view s s' : same_menu s s' -> menu_view s' = menu_view s.
Proof.
  intros H. apply same_menu_fields in H. destruct H as (A & B & C).
  unfold menu_view, nav_active, toggle_active, toggle_aria.
  rewrite A, B, C. reflexivity.
Qed.

Lemma same_menu_nav_active s s' : same_menu s s' -> nav_active s' = nav_active s.
Proof.
  intros H. apply same_menu_fields in H. destruct H as (A & _).
  unfold nav_active. rewrite A. reflexivity.
Qed.

Lemma same_menu_present s s' : same_menu s s' -> menu_present s -> menu_present s'.
Proof.
  intros H. apply same_menu_fields in H. destruct H as (A & B & _).
  unfold menu_present. rewrite A, B. trivial.
Qed.

Lemma same_menu_sync s s' : same_menu s s' -> sync_invariant s -> sync_invariant s'.
Proof.
  intros H. apply same_menu_fields in H. destruct H as (A & B & C).
  unfold sync_invariant, nav_active, toggle_aria. rewrite A, B, C. trivial.
Qed.

(** Preservation follows the structure of a computation. *)
Section Preserves.
Context {F : Type} (f : Page -> F).

Lemma preserves_ret {A} (a : A) : preserves f (ret a).
Proof. intros s. reflexivity. Qed.

Lemma preserves_throw {A} : preserves f (@throw A).
Proof. intros s. reflexivity. Qed.

Lemma preserves_gets {A} (g : Page -> A) : preserves f (gets g).
Proof. intros s. reflexivity. Qed.

Lemma preserves_deref {A} (g : Page -> option A) :
  preserves f (fun s => deref (g s) s).
Proof. intros s. unfold deref. destruct (g s); reflexivity. Qed.

Lemma preserves_modify (g : Page -> Page) :
  (forall s, f (g s) = f s) -> preserves f (modify g).
Proof. intros H s. apply H. Qed.

Lemma preserves_bind {A B} (c : JS A) (k : A -> JS B) :
  preserves f c -> (forall a, preserves f (k a)) -> preserves f (bind c k).
Proof.
  intros Hc Hk s. unfold bind. specialize (Hc s).
  destruct (c s) as [[a|] s1]; simpl in *.
  - eapply keeps_trans; [exact Hc|apply Hk].
  - exact Hc.
Qed.

Lemma preserves_when b (c : JS unit) : preserves f c -> preserves f (when b c).
Proof. intros H. destruct b; [exact H|apply preserves_ret]. Qed.

Lemma preserves_forEach {A} (l : list A) (body : A -> JS unit) :
  (forall x, preserves f (body x)) -> preserves f (forEach l body).
Proof.
  intros H. induction l as [|x l IH]; simpl.
  - apply preserves_ret.
  - apply preserves_bind; [apply H|intros _; exact IH].
Qed.

Lemma run_listener_keeps (c : JS unit) s :
  (forall s n, f (with_uncaught s n) = f s) ->
  preserves f c -> keeps f s (run_listener c s).
Proof.
  intros Hu Hc. unfold run_listener. specialize (Hc s).
  destruct (c s) as [[a|] s1]; simpl in *; [exact Hc|].
  unfold keeps in *. rewrite Hu. exact Hc.
Qed.

Lemma run_listeners_keeps (ls : list (JS unit)) :
  (forall s n, f (with_uncaught s n) = f s) ->
  Forall (preserves f) ls -> forall s, keeps f s (run_listeners ls s).
Proof.
  intros Hu H. unfold run_listeners.
  induction H as [|c ls Hc _ IH]; intros s; simpl; [apply keeps_refl|].
  eapply keeps_trans; [apply (run_listener_keeps c s Hu Hc)|apply IH].
Qed.

End Preserves.

Create HintDb frame.

(** Solves [preserves f c] for a straight-line [c] whose writes miss [f];
    what is known of the computations it calls comes from the hints. *)
Ltac frame_step :=
  first
    [ solve [auto with frame nocore]
    | apply preserves_ret
    | apply preserves_throw
    | apply preserves_gets
    | apply preserves_deref
    | apply preserves_when
    | apply preserves_modify; intros []; reflexivity
    | apply preserves_bind; [|intro]
    | match goal with
      | |- preserves _ (if ?b then _ else _) => destruct b
      | |- preserves _ (match ?x with Some _ => _ | None => _ end) => destruct x
      end ].

Ltac frame := repeat frame_step.

(** Splits [Forall P [c1; ...; cn]] into one goal per listener. *)
Ltac each_listener := repeat first [apply Forall_nil | apply Forall_cons].

Lemma menu_present_inv s :
  menu_present s -> exists nl mt, navLinks s = Some nl /\ menuToggle s = Some mt.
Proof.
  intros [H1 H2]. destruct (navLinks s) as [nl|]; [|contradiction].
  destruct (menuToggle s) as [mt|]; [|contradiction]. eauto.
Qed.

Lemma has_active_toggled e : has_active (toggled e) = negb (has_active e).
Proof. unfold has_active, toggled. simpl. apply ClassListFacts.contains_toggle. Qed.

Lemma has_active_deactivated e : has_active (deactivated e) = false.
Proof.
  unfold has_active, deactivated. simpl. apply ClassListFacts.contains_remove_same.
Qed.

Lemma set_menu_outside nl mt ov s : same_outside_menu s (set_menu nl mt ov s).
Proof. destruct s. reflexivity. Qed.

Lemma set_menu_present nl mt ov s : menu_present (set_menu nl mt ov s).
Proof. destruct s. split; discriminate. Qed.

Lemma toggled_sync nl mt s :
  sync_invariant
    (set_menu (toggled nl)
       (set_aria_expanded (string_of_bool (negb (has_active nl))) (toggled mt))
       (if negb (has_active nl) then "hidden" else "") s).
Proof.
  unfold sync_invariant, nav_active, toggle_aria. destruct s; simpl.
  rewrite has_active_toggled.
  destruct (has_active nl); simpl; split; intros H; try discriminate;
    split; try reflexivity; discriminate.
Qed.

Lemma closed_is_closed nl mt s :
  menu_closed (set_menu (deactivated nl) (set_aria_expanded "false" (deactivated mt)) "" s).
Proof.
  unfold menu_closed, nav_active, toggle_active, toggle_aria. destruct s; simpl.
  repeat split; apply has_active_deactivated.
Qed.

Lemma menu_closed_sync s : menu_closed s -> sync_invariant s.
Proof.
  unfold menu_closed, sync_invariant. intros (A & B & C & D).
  rewrite A, C, D. split; intros H; try discriminate. split; discriminate.
Qed.

(* ================================================================== *)
(** ** Listeners in terms of [closeMenu] *)
(* ================================================================== *)

Lemma linkClickClose_run s :
  linkClickClose s = if innerWidth s <=? 768 then closeMenu s else (Normal tt, s).
Proof.
  unfold linkClickClose, bind, gets, when, ret.
  destruct (innerWidth s <=? 768); reflexivity.
Qed.

Ltac listener_unfold :=
  cbv [documentClick keydownListener resizeListener linkClickClose
       nav_active has_active navLinks_is_active bind gets when ret deref throw
       modify navLinks menuToggle innerWidth].

Lemma documentClick_run t s :
  menu_present s ->
  documentClick t s =
    if (innerWidth s <=? 768) && negb (in_navLinks t) && negb (in_menuToggle t)
       && nav_active s
    then closeMenu s else (Normal tt, s).
Proof.
  intros Hp. destruct (menu_present_inv s Hp) as (nl & mt & Hnl & Hmt).
  destruct s; simpl in *; subst. listener_unfold.
  destruct (in_navLinks t), (in_menuToggle t), (innerWidth0 <=? 768); simpl;
    try reflexivity.
  all: destruct (ClassList.contains "active" (classList nl)); reflexivity.
Qed.

Lemma keydownListener_run key s :
  navLinks s <> None ->
  keydownListener key s =
    if String.eqb key "Escape" && nav_active s
    then closeMenu s else (Normal tt, s).
Proof.
  intros Hp. destruct (navLinks s) as [nl|] eqn:Hnl; [|contradiction].
  destruct s; simpl in *; subst. listener_unfold.
  destruct (String.eqb key "Escape"); simpl; try reflexivity.
  all: destruct (ClassList.contains "active" (classList nl)); reflexivity.
Qed.

Lemma resizeListener_run s :
  navLinks s <> None ->
  resizeListener s =
    ((if (768 <? innerWidth s) && nav_active s then closeMenu else ret tt) ;; rearm) s.
Proof.
  intros Hp. destruct (navLinks s) as [nl|] eqn:Hnl; [|contradiction].
  destruct s; simpl in *; subst. listener_unfold.
  destruct (768 <? innerWidth0); simpl; try reflexivity.
  all: destruct (ClassList.contains "active" (classList nl)); reflexivity.
Qed.

(* ================================================================== *)
(** ** Computations that leave the menu alone *)
(* ================================================================== *)

Lemma smoothScrollClick_same_menu link : preserves menu_of (smoothScrollClick link).
Proof. unfold smoothScrollClick, preventDefault, scrollTo. frame. Qed.

Lemma handleScroll_same_menu : preserves menu_of handleScroll.
Proof. unfold handleScroll, on_header. frame. Qed.

Lemma updateActiveNav_same_menu : preserves menu_of updateActiveNav.
Proof.
  unfold updateActiveNav. frame. apply preserves_forEach. intros sec. frame.
Qed.

Lemma run_callback_same_menu cb : preserves menu_of (run_callback cb).
Proof.
  destruct cb; simpl.
  - apply preserves_bind; [apply handleScroll_same_menu|intro; frame].
  - apply updateActiveNav_same_menu.
Qed.

Lemma scrollListenerHeader_same_menu : preserves menu_of scrollListenerHeader.
Proof. unfold scrollListenerHeader, requestAnimationFrame. frame. Qed.

Lemma scrollListenerNav_same_menu : preserves menu_of scrollListenerNav.
Proof. unfold scrollListenerNav, requestAnimationFrame. frame. Qed.

Lemma clearTimeout_same_menu h : preserves menu_of (clearTimeout h).
Proof. unfold clearTimeout. destruct h; frame. Qed.

Lemma setTimeout_same_menu d : preserves menu_of (setTimeout d).
Proof. intros []. reflexivity. Qed.

#[local] Hint Resolve clearTimeout_same_menu setTimeout_same_menu : frame.

Lemma rearm_same_menu : preserves menu_of rearm.
Proof. unfold rearm. frame. Qed.

Lemma fire_same_menu t s : same_menu s (fire t s).
Proof. destruct s. reflexivity. Qed.

Lemma run_timers_same_menu fuel until s : same_menu s (run_timers fuel until s).
Proof.
  revert s. induction fuel as [|n IH]; intros s; simpl; [apply keeps_refl|].
  destruct (earliest (timers s)) as [t|]; [|apply keeps_refl].
  destruct (snd t <=? until); [|apply keeps_refl].
  eapply keeps_trans; [apply fire_same_menu|apply IH].
Qed.

Lemma elapse_same_menu ms s : same_menu s (elapse ms s).
Proof.
  unfold elapse. simpl.
  pose proof (run_timers_same_menu (length (timers s)) (clock s + ms) s) as H.
  revert H. generalize (run_timers (length (timers s)) (clock s + ms) s).
  intros s1 H. apply (keeps_trans menu_of s s1); [exact H|].
  destruct s1. reflexivity.
Qed.

(* ================================================================== *)
(** ** The synchronisation invariant *)
(* ================================================================== *)

Lemma closeMenu_outside : preserves outside_of closeMenu.
Proof. unfold closeMenu, on_navLinks, on_menuToggle. frame. Qed.

Lemma toggleMenu_outside : preserves outside_of toggleMenu.
Proof. unfold toggleMenu, on_navLinks, on_menuToggle, navLinks_is_active. frame. Qed.

Lemma menu_ok_same_menu s s' : same_menu s s' -> menu_ok s -> menu_ok s'.
Proof.
  intros H [Hp Hi]. split.
  - eapply same_menu_present; eassumption.
  - eapply same_menu_sync; eassumption.
Qed.

Lemma closeMenu_menu_ok s : menu_present s -> menu_ok (snd (closeMenu s)).
Proof.
  intros Hp. destruct (menu_present_inv s Hp) as (nl & mt & Hnl & Hmt).
  rewrite (closeMenu_run s nl mt Hnl Hmt). simpl. split.
  - apply set_menu_present.
  - apply menu_closed_sync, closed_is_closed.
Qed.

Lemma toggleMenu_menu_ok s : menu_present s -> menu_ok (snd (toggleMenu s)).
Proof.
  intros Hp. destruct (menu_present_inv s Hp) as (nl & mt & Hnl & Hmt).
  rewrite (toggleMenu_run s nl mt Hnl Hmt). simpl. split.
  - apply set_menu_present.
  - apply toggled_sync.
Qed.

Lemma preserves_menu_ok (c : JS unit) s :
  preserves menu_of c -> menu_ok s -> menu_ok (snd (c s)).
Proof. intros H. apply menu_ok_same_menu, H. Qed.

Lemma linkClickClose_menu_ok s : menu_ok s -> menu_ok (snd (linkClickClose s)).
Proof.
  intros H. rewrite linkClickClose_run.
  destruct (innerWidth s <=? 768); [apply closeMenu_menu_ok, H|exact H].
Qed.

Lemma documentClick_menu_ok t s : menu_ok s -> menu_ok (snd (documentClick t s)).
Proof.
  intros H. rewrite documentClick_run by apply H.
  destruct (_ && _); [apply closeMenu_menu_ok, H|exact H].
Qed.

Lemma keydownListener_menu_ok key s :
  menu_ok s -> menu_ok (snd (keydownListener key s)).
Proof.
  intros H. rewrite keydownListener_run by apply H.
  destruct (_ && _); [apply closeMenu_menu_ok, H|exact H].
Qed.

Lemma resizeListener_menu_ok s : menu_ok s -> menu_ok (snd (resizeListener s)).
Proof.
  intros H. rewrite resizeListener_run by apply H. unfold bind.
  destruct (_ && _).
  - pose proof (closeMenu_menu_ok s (proj1 H)) as Hc.
    destruct (closeMenu s) as [[[]|] s1]; simpl in *; [|exact Hc].
    apply preserves_menu_ok; [apply rearm_same_menu|exact Hc].
  - simpl. apply preserves_menu_ok; [apply rearm_same_menu|exact H].
Qed.

Lemma menu_ok_uncaught s n : menu_ok s -> menu_ok (with_uncaught s n).
Proof. apply menu_ok_same_menu. destruct s. reflexivity. Qed.

Lemma run_listeners_menu_ok (ls : list (JS unit)) :
  Forall (fun c => forall s, menu_ok s -> menu_ok (snd (c s))) ls ->
  forall s, menu_ok s -> menu_ok (run_listeners ls s).
Proof.
  unfold run_listeners.
  induction 1 as [|c ls Hc _ IH]; intros s Hs; simpl; [exact Hs|].
  apply IH. unfold run_listener. specialize (Hc s Hs).
  destruct (c s) as [[[]|] s1]; simpl in *; [exact Hc|].
  apply menu_ok_uncaught, Hc.
Qed.

Lemma click_listeners_menu_ok t s0 :
  Forall (fun c => forall s, menu_ok s -> menu_ok (snd (c s))) (click_listeners t s0).
Proof.
  unfold click_listeners. apply Forall_app; split; [|apply Forall_app; split].
  - destruct (on_link t) as [i|]; [|constructor].
    destruct (nth_error (navLinkItems s0) i) as [link|]; [|constructor].
    each_listener.
    + apply linkClickClose_menu_ok.
    + intros s. apply preserves_menu_ok, smoothScrollClick_same_menu.
  - destruct (menuToggle s0); [|constructor].
    destruct (in_menuToggle t); each_listener.
    intros s H. apply toggleMenu_menu_ok, H.
  - each_listener. apply documentClick_menu_ok.
Qed.

Lemma step_menu_ok ev s : menu_ok s -> menu_ok (step ev s).
Proof.
  intros H. destruct ev as [t|y| |w|key|ms]; unfold step.
  - apply run_listeners_menu_ok; [apply click_listeners_menu_ok|].
    revert H. apply menu_ok_same_menu. destruct s. reflexivity.
  - apply run_listeners_menu_ok.
    + each_listener; intros s1; apply preserves_menu_ok.
      * apply scrollListenerHeader_same_menu.
      * apply scrollListenerNav_same_menu.
    + revert H. apply menu_ok_same_menu. destruct s. reflexivity.
  - apply run_listeners_menu_ok.
    + apply Forall_forall. intros c Hc. apply in_map_iff in Hc.
      destruct Hc as (cb & <- & _). intros s1.
      apply preserves_menu_ok, run_callback_same_menu.
    + revert H. apply menu_ok_same_menu. destruct s. reflexivity.
  - apply run_listeners_menu_ok.
    + each_listener. apply resizeListener_menu_ok.
    + revert H. apply menu_ok_same_menu. destruct s. reflexivity.
  - apply run_listeners_menu_ok; [|exact H].
    each_listener. apply keydownListener_menu_ok.
  - revert H. apply menu_ok_same_menu, elapse_same_menu.
Qed.

Lemma run_menu_ok evs s : menu_ok s -> menu_ok (run evs s).
Proof.
  unfold run. revert s. induction evs as [|ev evs IH]; intros s H; simpl.
  - exact H.
  - apply IH, step_menu_ok, H.
Qed.

(** C5. With both menu elements in the document, [toggleMenu] and
    [closeMenu] return normally in a state that satisfies the
    synchronisation invariant, and every sequence of events (clicks on
    links, on the toggle and outside, Escape and other keys, resizes,
    scrolls, frames and timers) keeps it: the panel is never active
    without [aria-expanded="true"] and [overflow: hidden] on the body,
    and never inactive with either of them in effect. *)
Theorem sync_invariant_preserved (s : Page) :
  menu_present s -> sync_invariant s ->
  (exists s', toggleMenu s = (Normal tt, s') /\ sync_invariant s') /\
  (exists s', closeMenu s = (Normal tt, s') /\ sync_invariant s') /\
  (forall evs, sync_invariant (run evs s) /\ menu_present (run evs s)).
Proof.
  intros Hp Hi. destruct (menu_present_inv s Hp) as (nl & mt & Hnl & Hmt).
  split; [|split].
  - eexists. split; [apply (toggleMenu_run s nl mt Hnl Hmt)|].
    apply toggled_sync.
  - eexists. split; [apply (closeMenu_run s nl mt Hnl Hmt)|].
    apply menu_closed_sync, closed_is_closed.
  - intros evs. destruct (run_menu_ok evs s (conj Hp Hi)) as [A B]. auto.
Qed.

(* ================================================================== *)
(** ** Toggling twice, closing twice *)
(* ================================================================== *)

Lemma set_menu_fields nl mt ov s :
  navLinks (set_menu nl mt ov s) = Some nl /\
  menuToggle (set_menu nl mt ov s) = Some mt /\
  bodyOverflow (set_menu nl mt ov s) = ov.
Proof. destruct s. repeat split. Qed.

Lemma has_active_set_aria v e : has_active (set_aria_expanded v e) = has_active e.
Proof. reflexivity. Qed.

(** C4 (amended). With both menu elements in the document, two calls of
    [toggleMenu] return normally, restore the [active] class on the
    panel and on the toggle and touch nothing outside the menu; the whole
    observable menu state (classes, [aria-expanded], body overflow) is
    back at its first value exactly when [aria-expanded] and the body
    overflow agreed with the panel's class before the first call. *)
Theorem toggleMenu_twice (s : Page) (nl mt : Element) :
  navLinks s = Some nl -> menuToggle s = Some mt ->
  exists s1 s2,
    toggleMenu s = (Normal tt, s1) /\ toggleMenu s1 = (Normal tt, s2) /\
    nav_active s2 = nav_active s /\
    toggle_active s2 = toggle_active s /\
    same_outside_menu s s2 /\
    (menu_view s2 = menu_view s <-> menu_synced s).
Proof.
  intros Hnl Hmt.
  pose proof (toggleMenu_run s nl mt Hnl Hmt) as R1.
  set (s1 := set_menu _ _ _ s) in R1.
  destruct (set_menu_fields (toggled nl)
              (set_aria_expanded (string_of_bool (negb (has_active nl))) (toggled mt))
              (if negb (has_active nl) then "hidden" else "") s) as (N1 & M1 & _).
  fold s1 in N1, M1.
  pose proof (toggleMenu_run s1 _ _ N1 M1) as R2.
  set (s2 := set_menu _ _ _ s1) in R2.
  exists s1, s2.
  assert (Hna : nav_active s2 = nav_active s).
  { unfold nav_active. rewrite Hnl. subst s2.
    rewrite (proj1 (set_menu_fields _ _ _ _)).
    rewrite !has_active_toggled. apply negb_involutive. }
  assert (Hta : toggle_active s2 = toggle_active s).
  { unfold toggle_active. rewrite Hmt. subst s2.
    rewrite (proj1 (proj2 (set_menu_fields _ _ _ _))).
    rewrite has_active_set_aria, has_active_toggled, has_active_set_aria,
      has_active_toggled. apply negb_involutive. }
  assert (Har : toggle_aria s2 = Some (string_of_bool (nav_active s))).
  { unfold toggle_aria, nav_active. rewrite Hnl. subst s2.
    rewrite (proj1 (proj2 (set_menu_fields _ _ _ _))). simpl.
    rewrite has_active_toggled, negb_involutive. reflexivity. }
  assert (Hov : bodyOverflow s2 = if nav_active s then "hidden" else "").
  { unfold nav_active. rewrite Hnl. subst s2.
    rewrite (proj2 (proj2 (set_menu_fields _ _ _ _))).
    rewrite has_active_toggled, negb_involutive. reflexivity. }
  split; [exact R1|]. split; [exact R2|]. split; [exact Hna|].
  split; [exact Hta|]. split.
  - apply (keeps_trans outside_of s s1 s2); apply set_menu_outside.
  - unfold menu_synced, menu_view. split.
    + intros H.
      pose proof (f_equal (fun v => snd (fst v)) H) as E3.
      pose proof (f_equal snd H) as E4. simpl in E3, E4.
      split; congruence.
    + intros [A B]. congruence.
Qed.

Lemma deactivated_idem e : deactivated (deactivated e) = deactivated e.
Proof.
  unfold deactivated, set_classList. simpl.
  rewrite ClassListFacts.remove_idem. reflexivity.
Qed.

Lemma closeMenu_twice s : closeMenu (snd (closeMenu s)) = closeMenu s.
Proof.
  destruct (navLinks s) as [nl|] eqn:Hnl; destruct (menuToggle s) as [mt|] eqn:Hmt.
  - rewrite (closeMenu_run s nl mt Hnl Hmt). simpl.
    destruct (set_menu_fields (deactivated nl)
                (set_aria_expanded "false" (deactivated mt)) "" s) as (N1 & M1 & _).
    rewrite (closeMenu_run _ _ _ N1 M1). f_equal.
    rewrite deactivated_idem. destruct s. unfold set_menu. simpl.
    unfold deactivated, set_aria_expanded, set_classList. simpl.
    rewrite ClassListFacts.remove_idem. reflexivity.
  - destruct s; simpl in *; subst.
    cbv [closeMenu on_navLinks on_menuToggle bind modify deref ret throw
         navLinks menuToggle with_navLinks fst snd].
    fold (deactivated nl). fold (deactivated (deactivated nl)).
    rewrite deactivated_idem. reflexivity.
  - destruct s; simpl in *; subst. reflexivity.
  - destruct s; simpl in *; subst. reflexivity.
Qed.

Lemma closeMenu_fixes_closed s :
  menu_present s -> menu_closed s -> closeMenu s = (Normal tt, s).
Proof.
  intros Hp (A & B & C & D).
  destruct (menu_present_inv s Hp) as (nl & mt & Hnl & Hmt).
  rewrite (closeMenu_run s nl mt Hnl Hmt). f_equal.
  unfold nav_active, toggle_active, toggle_aria in *.
  rewrite Hnl in A. rewrite Hmt in B, C.
  destruct s; simpl in *; subst. unfold set_menu; simpl.
  unfold deactivated, set_aria_expanded, set_classList, has_active in *.
  rewrite !ClassListFacts.remove_absent by assumption.
  destruct nl, mt; simpl in *; subst. reflexivity.
Qed.

(** C8 (amended). [closeMenu] is idempotent.  From every page, present
    elements or not, a second call ends as the first did, in the same
    state.  On a page with both menu elements whose menu is closed with
    its side effects at rest (no [active] class on panel or toggle,
    [aria-expanded="false"], empty body overflow) a call returns normally
    and leaves the whole page as it was; and these are the only pages on
    which a call leaves classes, [aria-expanded] and body overflow
    unchanged. *)
Theorem closeMenu_idempotent (s : Page) :
  closeMenu (snd (closeMenu s)) = closeMenu s /\
  (menu_present s ->
     (menu_closed s -> closeMenu s = (Normal tt, s)) /\
     (menu_view (snd (closeMenu s)) = menu_view s -> menu_closed s)).
Proof.
  split; [apply closeMenu_twice|].
  intros Hp. split; [apply closeMenu_fixes_closed, Hp|].
  destruct (menu_present_inv s Hp) as (nl & mt & Hnl & Hmt).
  rewrite (closeMenu_run s nl mt Hnl Hmt). simpl. intros H.
  pose proof (closed_is_closed nl mt s) as (A & B & C & D).
  unfold menu_view in H. injection H as E1 E2 E3 E4.
  unfold menu_closed. rewrite <- E1, <- E2, <- E3, <- E4. auto.
Qed.

(* ================================================================== *)
(** ** The active-section highlight *)
(* ================================================================== *)

Section MarkLink.
Import ClassListFacts.

Lemma href_is_set_classList str f link :
  href_is str (set_classList f link) = href_is str link.
Proof. reflexivity. Qed.

Lemma attr_href_mark_link i link : attr_href (mark_link i link) = attr_href link.
Proof. unfold mark_link. destruct (href_is _ _); reflexivity. Qed.

Lemma has_active_mark_link i link :
  has_active (mark_link i link) = href_is (hash_of i) link.
Proof.
  unfold mark_link. rewrite href_is_set_classList.
  destruct (href_is (hash_of i) link); unfold has_active; simpl.
  - apply contains_add.
  - apply contains_remove_same.
Qed.

(** A later match overwrites what an earlier one did to a link. *)
Lemma mark_link_absorb a b link :
  mark_link b (mark_link a link) = mark_link b link.
Proof.
  unfold mark_link. rewrite !href_is_set_classList.
  destruct (href_is (hash_of a) link); rewrite ?href_is_set_classList;
    destruct (href_is (hash_of b) link);
    unfold set_classList; simpl;
    rewrite ?remove_add_remove, ?remove_idem; reflexivity.
Qed.

Lemma href_is_names sec link :
  href_is (hash_of (attr_id sec)) link = true <-> names sec link.
Proof.
  unfold href_is, names. destruct (attr_href link) as [h|].
  - rewrite String.eqb_eq. split; congruence.
  - split; discriminate.
Qed.

End MarkLink.

Lemma map_mark_link_absorb a b links :
  map (mark_link b) (map (mark_link a) links) = map (mark_link b) links.
Proof.
  rewrite map_map. apply map_ext. intros link. apply mark_link_absorb.
Qed.

Lemma highlight_absorb pos b secs links :
  map (mark_link b) (highlight pos secs links) = map (mark_link b) links.
Proof.
  unfold highlight. revert links.
  induction secs as [|x secs IH]; intros links; simpl; [reflexivity|].
  rewrite IH. destruct (span_contains pos x); [|reflexivity].
  apply map_mark_link_absorb.
Qed.

Lemma highlight_no_match pos secs links :
  Forall (fun x => span_contains pos x = false) secs ->
  highlight pos secs links = links.
Proof.
  unfold highlight. induction 1 as [|x secs Hx _ IH]; simpl; [reflexivity|].
  rewrite Hx. exact IH.
Qed.

Lemma highlight_last_match pos pre sec post links :
  span_contains pos sec = true ->
  Forall (fun x => span_contains pos x = false) post ->
  highlight pos (pre ++ sec :: post) links = map (mark_link (attr_id sec)) links.
Proof.
  intros Hsec Hpost. unfold highlight. rewrite fold_left_app. simpl.
  rewrite Hsec. fold (highlight pos pre links).
  rewrite highlight_absorb. apply (highlight_no_match pos post), Hpost.
Qed.

Lemma with_navLinkItems_same s : with_navLinkItems s (navLinkItems s) = s.
Proof. destruct s. reflexivity. Qed.

Lemma with_navLinkItems_twice s a b :
  with_navLinkItems (with_navLinkItems s a) b = with_navLinkItems s b.
Proof. destruct s. reflexivity. Qed.

Lemma navLinkItems_with s links : navLinkItems (with_navLinkItems s links) = links.
Proof. destruct s. reflexivity. Qed.

(** The loop returns normally, and its effect on the page is [highlight]
    on the link list. *)
Lemma highlight_loop_run pos secs :
  forall s,
    forEach secs
      (fun section =>
         when (span_contains pos section)
           (modify (fun s =>
              with_navLinkItems s
                (map (mark_link (attr_id section)) (navLinkItems s))))) s =
    (Normal tt, with_navLinkItems s (highlight pos secs (navLinkItems s))).
Proof.
  induction secs as [|x secs IH]; intros s.
  - simpl. unfold ret. rewrite with_navLinkItems_same. reflexivity.
  - simpl forEach. unfold bind at 1. unfold when at 1.
    unfold highlight. simpl fold_left.
    fold (highlight pos secs
            (if span_contains pos x
             then map (mark_link (attr_id x)) (navLinkItems s)
             else navLinkItems s)).
    destruct (span_contains pos x).
    + unfold modify at 1. rewrite IH.
      rewrite navLinkItems_with, with_navLinkItems_twice. reflexivity.
    + unfold ret at 1. apply IH.
Qed.

Lemma updateActiveNav_run s :
  updateActiveNav s =
    (Normal tt,
     with_navLinkItems s (highlight (scrollPos s) (sections s) (navLinkItems s))).
Proof.
  unfold updateActiveNav, scrollPos. unfold bind at 1 2, gets.
  apply highlight_loop_run.
Qed.

Lemma marked_for_map sec links :
  Forall2 (marked_for sec) links (map (mark_link (attr_id sec)) links).
Proof.
  induction links as [|l links IH]; simpl; constructor; [|exact IH].
  split.
  - apply attr_href_mark_link.
  - rewrite has_active_mark_link. apply href_is_names.
Qed.

(** C9. When some section's span contains [scrollY + 150], and so also
    when two or more do, one run of [updateActiveNav] returns normally
    and is decided by the last such section in document order: every
    link keeps its href and ends up active exactly when its href is [#]
    followed by that section's id. *)
Theorem updateActiveNav_last_match_wins (s : Page) (pre post : list Element)
    (sec : Element) :
  sections s = (pre ++ sec :: post)%list ->
  span_contains (scrollPos s) sec = true ->
  Forall (fun x => span_contains (scrollPos s) x = false) post ->
  exists links',
    updateActiveNav s = (Normal tt, with_navLinkItems s links') /\
    Forall2 (marked_for sec) (navLinkItems s) links'.
Proof.
  intros Hsecs Hsec Hpost.
  exists (map (mark_link (attr_id sec)) (navLinkItems s)). split.
  - rewrite updateActiveNav_run, Hsecs.
    rewrite (highlight_last_match _ pre sec post) by assumption. reflexivity.
  - apply marked_for_map.
Qed.

Lemma count_active_marked i links :
  count_active (map (mark_link i) links) =
  length (filter (href_is (hash_of i)) links).
Proof.
  unfold count_active. induction links as [|l links IH]; simpl; [reflexivity|].
  rewrite has_active_mark_link.
  destruct (href_is (hash_of i) l); simpl; rewrite IH; reflexivity.
Qed.

Lemma filter_href_is_absent str links :
  ~ In (Some str) (map attr_href links) -> filter (href_is str) links = [].
Proof.
  induction links as [|l links IH]; simpl; intros H; [reflexivity|].
  destruct (href_is str l) eqn:E.
  - exfalso. apply H. left. unfold href_is in E.
    destruct (attr_href l) as [h|]; [|discriminate].
    apply String.eqb_eq in E. congruence.
  - apply IH. intros Hin. apply H. right. exact Hin.
Qed.

Lemma distinct_hrefs_one_named str links :
  NoDup (map attr_href links) ->
  (length (filter (href_is str) links) <= 1)%nat.
Proof.
  induction links as [|l links IH]; simpl; intros Hnd; [lia|].
  inversion Hnd as [|h hs Hnotin Hnd']; subst.
  destruct (href_is str l) eqn:E; [|apply IH, Hnd'].
  unfold href_is in E. destruct (attr_href l) as [h|] eqn:Eh; [|discriminate].
  apply String.eqb_eq in E. subst h.
  rewrite filter_href_is_absent by exact Hnotin. simpl. lia.
Qed.

Lemma nth_error_middle {A} (pre : list A) x post :
  nth_error (pre ++ x :: post) (length pre) = Some x.
Proof. induction pre; simpl; auto. Qed.

Lemma nth_error_after {A} (pre : list A) x post k :
  nth_error (pre ++ x :: post) (length pre + S k) = nth_error post k.
Proof. induction pre; simpl; auto. Qed.

Lemma non_overlapping_unique pos pre sec post :
  non_overlapping (pre ++ sec :: post) ->
  span_contains pos sec = true ->
  Forall (fun x => span_contains pos x = false) post.
Proof.
  intros Hno Hsec. apply Forall_forall. intros x Hx.
  destruct (span_contains pos x) eqn:E; [exfalso|reflexivity].
  apply In_nth_error in Hx. destruct Hx as [k Hk].
  apply (Hno (length pre) (length pre + S k)%nat sec x pos); auto.
  - apply nth_error_middle.
  - rewrite nth_error_after. exact Hk.
  - lia.
Qed.

(** C1 (amended). For non-overlapping sections, one run of
    [updateActiveNav] returns normally.  When a section's span contains
    [scrollY + 150], every link keeps its href and is active afterwards
    exactly when its href names that section, so with pairwise distinct
    hrefs at most one link is active.  When no section's span contains
    it, the run changes nothing: every link keeps the mark it had. *)
Theorem updateActiveNav_non_overlapping (s : Page) :
  non_overlapping (sections s) ->
  (forall sec,
     In sec (sections s) -> span_contains (scrollPos s) sec = true ->
     exists links',
       updateActiveNav s = (Normal tt, with_navLinkItems s links') /\
       Forall2 (marked_for sec) (navLinkItems s) links' /\
       (NoDup (map attr_href (navLinkItems s)) -> (count_active links' <= 1)%nat)) /\
  (Forall (fun x => span_contains (scrollPos s) x = false) (sections s) ->
   updateActiveNav s = (Normal tt, s)).
Proof.
  intros Hno. split.
  - intros sec Hin Hsec. apply in_split in Hin. destruct Hin as (pre & post & Hsecs).
    rewrite Hsecs in Hno.
    pose proof (non_overlapping_unique _ _ _ _ Hno Hsec) as Hpost.
    exists (map (mark_link (attr_id sec)) (navLinkItems s)). repeat split.
    + rewrite updateActiveNav_run, Hsecs.
      rewrite (highlight_last_match _ pre sec post) by assumption. reflexivity.
    + apply marked_for_map.
    + intros Hnd. rewrite count_active_marked.
      apply distinct_hrefs_one_named, Hnd.
  - intros Hnone. rewrite updateActiveNav_run.
    rewrite highlight_no_match by exact Hnone.
    rewrite with_navLinkItems_same. reflexivity.
Qed.

Lemma example_sections_non_overlapping : non_overlapping Example.allSections.
Proof.
  intros i j a b pos Hi Hj Hne Ha Hb.
  destruct i as [|[|[|i]]]; destruct j as [|[|[|j]]]; simpl in Hi, Hj;
    try congruence;
    try (destruct i; discriminate); try (destruct j; discriminate);
    injection Hi as <-; injection Hj as <-;
    unfold span_contains in Ha, Hb; simpl in Ha, Hb;
    apply andb_true_iff in Ha; apply andb_true_iff in Hb;
    destruct Ha as [Ha1 Ha2]; destruct Hb as [Hb1 Hb2];
    apply Z.leb_le in Ha1, Hb1; apply Z.ltb_lt in Ha2, Hb2; lia.
Qed.

(** C1, as stated, fails.  The example page is scrolled to the top, where
    a run marks the link to the first section, and then below the last
    section: the sections do not overlap, none contains [scrollY + 150],
    and after the run the link is still marked. *)
Lemma updateActiveNav_leaves_stale_mark :
  non_overlapping (sections scrolled_past) /\
  Forall (fun x => span_contains (scrollPos scrolled_past) x = false)
         (sections scrolled_past) /\
  exists s',
    updateActiveNav scrolled_past = (Normal tt, s') /\
    map has_active (navLinkItems s') = [true; false; false; false].
Proof.
  split; [exact example_sections_non_overlapping|].
  split; [repeat constructor|].
  eexists. split; reflexivity.
Qed.

(* ================================================================== *)
(** ** Clicks: smooth scrolling and what runs for which target *)
(* ================================================================== *)

Lemma outside_fields s s' :
  same_outside_menu s s' ->
  header s' = header s /\ byId s' = byId s /\
  defaultPrevented s' = defaultPrevented s /\
  scrollRequests s' = scrollRequests s /\
  navLinkItems s' = navLinkItems s.
Proof.
  unfold same_outside_menu, keeps, outside_of. intros H.
  injection H as H1 H2 H3 H4 H5 H6 H7 H8 H9 H10 H11 H12 H13 H14 H15.
  auto.
Qed.

#[local] Hint Resolve closeMenu_outside toggleMenu_outside : frame.

Lemma linkClickClose_outside : preserves outside_of linkClickClose.
Proof. unfold linkClickClose. frame. Qed.

Lemma documentClick_outside t : preserves outside_of (documentClick t).
Proof. unfold documentClick, navLinks_is_active. frame. Qed.

Lemma outside_of_uncaught s n : outside_of (with_uncaught s n) = outside_of s.
Proof. destruct s. reflexivity. Qed.

Lemma startsWith_hash targetId : startsWith "#" ("#" ++ targetId) = true.
Proof. unfold startsWith. simpl. destruct targetId; reflexivity. Qed.

Lemma substring1_hash targetId : substring1 ("#" ++ targetId) = targetId.
Proof. reflexivity. Qed.

Lemma smoothScrollClick_run link targetId h s :
  attr_href link = Some ("#" ++ targetId) -> header s = Some h ->
  smoothScrollClick link s =
    match getElementById targetId (byId s) with
    | Some target =>
        (Normal tt,
         with_scrollRequests (with_defaultPrevented s true)
           (scrollRequests s ++ [offsetTop target - offsetHeight h])%list)
    | None => (Normal tt, s)
    end.
Proof.
  intros Hh Hhd. unfold smoothScrollClick. rewrite Hh.
  unfold bind at 1, deref at 1, ret at 1.
  rewrite startsWith_hash, substring1_hash. unfold when.
  unfold bind at 1, gets at 1.
  destruct (getElementById targetId (byId s)) as [target|]; [|reflexivity].
  unfold preventDefault, scrollTo, bind, modify, deref, ret.
  destruct s; simpl in *; subst. reflexivity.
Qed.

(** The listeners after the two on the anchor leave the event and the
    scroll requests alone. *)
Lemma click_tail_outside t s0 s :
  same_outside_menu s
    (run_listeners
       ((match menuToggle s0 with
         | Some _ => if in_menuToggle t then [toggleMenu] else []
         | None => []
         end) ++ [documentClick t]) s).
Proof.
  apply run_listeners_keeps; [apply outside_of_uncaught|].
  apply Forall_app. split.
  - destruct (menuToggle s0); [|constructor].
    destruct (in_menuToggle t); each_listener. apply toggleMenu_outside.
  - each_listener. apply documentClick_outside.
Qed.

Lemma step_click t s :
  step (Click t) s =
    run_listeners (click_listeners t (with_defaultPrevented s false))
      (with_defaultPrevented s false).
Proof. reflexivity. Qed.

Lemma run_listeners_cons c ls s :
  run_listeners (c :: ls) s = run_listeners ls (run_listener c s).
Proof. reflexivity. Qed.

(** A click on an anchor: the close listener, then the smooth-scroll
    listener, then listeners that leave the event and the scroll requests
    alone. *)
Lemma step_click_on_link t s i link :
  on_link t = Some i ->
  nth_error (navLinkItems s) i = Some link ->
  exists s1,
    same_outside_menu (with_defaultPrevented s false) s1 /\
    same_outside_menu (run_listener (smoothScrollClick link) s1) (step (Click t) s).
Proof.
  intros Hon Hnth. rewrite step_click.
  set (s0 := with_defaultPrevented s false).
  assert (E0 : navLinkItems s0 = navLinkItems s) by (destruct s; reflexivity).
  unfold click_listeners. rewrite Hon, E0, Hnth.
  exists (run_listener linkClickClose s0). split.
  - apply run_listener_keeps; [apply outside_of_uncaught|apply linkClickClose_outside].
  - apply click_tail_outside.
Qed.

(** C6. A click on an anchor of [navLinkItems] whose href is [#] followed
    by [targetId], on a page with a header: when an element with that id
    exists, the event ends with its default cancelled and one scroll
    request, to the target's [offsetTop] minus the header's
    [offsetHeight]; when none exists, the default is not cancelled and
    nothing is requested. *)
Theorem smooth_scroll_click (s : Page) (t : ClickTarget) (i : nat)
    (link h : Element) (targetId : string) :
  on_link t = Some i ->
  nth_error (navLinkItems s) i = Some link ->
  attr_href link = Some ("#" ++ targetId) ->
  header s = Some h ->
  match getElementById targetId (byId s) with
  | Some target =>
      defaultPrevented (step (Click t) s) = true /\
      scrollRequests (step (Click t) s) =
        (scrollRequests s ++ [offsetTop target - offsetHeight h])%list
  | None =>
      defaultPrevented (step (Click t) s) = false /\
      scrollRequests (step (Click t) s) = scrollRequests s
  end.
Proof.
  intros Hon Hnth Hhref Hhd.
  destruct (step_click_on_link t s i link Hon Hnth) as (s1 & K1 & K2).
  apply outside_fields in K1. destruct K1 as (A1 & B1 & C1 & D1 & _).
  apply outside_fields in K2. destruct K2 as (_ & _ & C2 & D2 & _).
  assert (Hs0 : header s1 = Some h /\ byId s1 = byId s /\
                defaultPrevented s1 = false /\
                scrollRequests s1 = scrollRequests s).
  { rewrite A1, B1, C1, D1. destruct s; simpl in *. auto. }
  destruct Hs0 as (A & B & C & D).
  rewrite C2, D2. unfold run_listener.
  rewrite (smoothScrollClick_run link targetId h s1 Hhref A), B.
  destruct (getElementById targetId (byId s)) as [target|].
  - rewrite <- D. destruct s1; simpl. auto.
  - auto.
Qed.

Lemma documentClick_skips t s :
  closes_on_click t s = false -> same_menu s (snd (documentClick t s)).
Proof.
  unfold closes_on_click, nav_active, has_active.
  destruct s; simpl. intros H.
  cbv [documentClick bind gets when ret deref throw navLinks_is_active
       navLinks menuToggle innerWidth].
  destruct (innerWidth0 <=? 768); [|reflexivity].
  destruct navLinks0 as [nl|]; [|reflexivity].
  destruct menuToggle0 as [mt|]; [|reflexivity].
  destruct (in_navLinks t); [reflexivity|].
  destruct (in_menuToggle t); [reflexivity|].
  simpl in H |- *. rewrite H. reflexivity.
Qed.

(** C10 (amended). A click on a link that is not an anchor of
    [navLinkItems] and not inside the toggle runs only the document's
    listener: the default is not cancelled and no scroll is requested.
    The menu fields stay as they were unless the window is at most 768
    wide, the click is outside the panel and the panel is active; then,
    with both menu elements in the document, the listener closes the
    menu. *)
Theorem click_elsewhere (s : Page) (t : ClickTarget) :
  on_link t = None -> in_menuToggle t = false ->
  click_listeners t (with_defaultPrevented s false) = [documentClick t] /\
  defaultPrevented (step (Click t) s) = false /\
  scrollRequests (step (Click t) s) = scrollRequests s /\
  (closes_on_click t s = false -> same_menu s (step (Click t) s)) /\
  (closes_on_click t s = true -> menu_present s ->
   menu_closed (step (Click t) s)).
Proof.
  intros Hon Htg.
  assert (Hl : click_listeners t (with_defaultPrevented s false) = [documentClick t]).
  { unfold click_listeners. rewrite Hon, Htg.
    destruct (menuToggle _); reflexivity. }
  split; [exact Hl|]. rewrite step_click, Hl.
  set (s0 := with_defaultPrevented s false).
  change (run_listeners [documentClick t] s0)
    with (run_listener (documentClick t) s0).
  assert (Hm0 : same_menu s s0) by (destruct s; reflexivity).
  assert (Hc0 : closes_on_click t s0 = closes_on_click t s).
  { unfold closes_on_click. rewrite (same_menu_nav_active _ _ Hm0).
    destruct s; reflexivity. }
  pose proof (run_listener_keeps outside_of (documentClick t) s0
                outside_of_uncaught (documentClick_outside t)) as K.
  apply outside_fields in K. destruct K as (_ & _ & C & D & _).
  split; [rewrite C; destruct s; reflexivity|].
  split; [rewrite D; destruct s; reflexivity|].
  split.
  - intros Hc. rewrite <- Hc0 in Hc.
    apply (keeps_trans menu_of s s0); [exact Hm0|].
    unfold run_listener.
    pose proof (documentClick_skips t s0 Hc) as Hk.
    destruct (documentClick t s0) as [[[]|] s1]; simpl in Hk; [exact Hk|].
    apply (keeps_trans menu_of s0 s1); [exact Hk|]. destruct s1; reflexivity.
  - intros Hc Hp. rewrite <- Hc0 in Hc.
    pose proof (same_menu_present _ _ Hm0 Hp) as Hp0.
    unfold run_listener.
    rewrite (documentClick_run t s0 Hp0). fold (closes_on_click t s0). rewrite Hc.
    destruct (menu_present_inv s0 Hp0) as (nl & mt & Hnl & Hmt).
    rewrite (closeMenu_run s0 nl mt Hnl Hmt). apply closed_is_closed.
Qed.

(** C10, as stated, fails.  On the phone page with the menu open, a click
    on a link elsewhere in the document closes the menu. *)
Lemma click_elsewhere_closes_open_menu :
  menu_view Example.phoneOpen = (true, true, Some "true", "hidden") /\
  menu_view (step (Click elsewhere) Example.phoneOpen) = (false, false, Some "false", "").
Proof. split; reflexivity. Qed.

(* ================================================================== *)
(** ** Frames for every listener at once *)
(* ================================================================== *)

Lemma preserves_setTimeout {F} (f : Page -> F) d :
  (forall s, f (with_nextHandle
                  (with_timers s (timers s ++ [(nextHandle s, clock s + d)])%list)
                  (S (nextHandle s))) = f s) ->
  preserves f (setTimeout d).
Proof. intros H s. apply H. Qed.

(** Unfolds a listener down to reads and writes and discharges
    [preserves f c] when no write of [c] reaches [f]. *)
Ltac frame_any :=
  unfold linkClickClose, documentClick, keydownListener, resizeListener, rearm,
    smoothScrollClick, preventDefault, scrollTo, scrollListenerHeader,
    scrollListenerNav, requestAnimationFrame, handleScroll, updateActiveNav,
    clearTimeout, toggleMenu, closeMenu, on_navLinks, on_menuToggle, on_header,
    navLinks_is_active;
  repeat first
    [ frame_step
    | apply preserves_forEach; intro
    | apply preserves_setTimeout; intros []; reflexivity ].

(* ================================================================== *)
(** ** The scroll throttle *)
(* ================================================================== *)

(** What one scroll event does: a pending update swallows it; otherwise
    the first listener queues [handleScroll] and raises the flag, which
    the second listener then finds raised. *)
Lemma step_scroll y s :
  step (Scroll y) s =
    if isScrolling s
    then with_scrollY s y
    else with_isScrolling
           (with_frameQueue (with_scrollY s y) (frameQueue s ++ [CbHandleScroll])%list)
           true.
Proof. destruct s. simpl. destruct isScrolling0; reflexivity. Qed.

Lemma click_listeners_links t s0 :
  Forall (preserves links_of) (click_listeners t s0).
Proof.
  unfold click_listeners. apply Forall_app; split; [|apply Forall_app; split].
  - destruct (on_link t) as [i|]; [|constructor].
    destruct (nth_error (navLinkItems s0) i) as [link|]; [|constructor].
    each_listener; frame_any.
  - destruct (menuToggle s0); [|constructor].
    destruct (in_menuToggle t); each_listener. frame_any.
  - each_listener. frame_any.
Qed.

Lemma links_of_uncaught s n : links_of (with_uncaught s n) = links_of s.
Proof. destruct s. reflexivity. Qed.

Lemma run_timers_links fuel until s : keeps links_of s (run_timers fuel until s).
Proof.
  revert s. induction fuel as [|n IH]; intros s; simpl; [apply keeps_refl|].
  destruct (earliest (timers s)) as [t|]; [|apply keeps_refl].
  destruct (snd t <=? until); [|apply keeps_refl].
  apply (keeps_trans links_of s (fire t s)); [destruct s; reflexivity|apply IH].
Qed.

(** A frame whose queue holds no highlight callback leaves the links. *)
Lemma frame_without_nav_callback q :
  ~ In CbUpdateActiveNav q -> Forall (preserves links_of) (map run_callback q).
Proof.
  induction q as [|cb q IH]; simpl; intros H; constructor.
  - destruct cb; [|exfalso; apply H; left; reflexivity].
    simpl. frame_any.
  - apply IH. intros Hin. apply H. right. exact Hin.
Qed.

Lemma step_without_nav_callback ev s :
  ~ In CbUpdateActiveNav (frameQueue s) ->
  navLinkItems (step ev s) = navLinkItems s /\
  ~ In CbUpdateActiveNav (frameQueue (step ev s)).
Proof.
  intros H. destruct ev as [t|y| |w|key|ms].
  - simpl. set (s0 := with_defaultPrevented s false).
    pose proof (run_listeners_keeps links_of _ links_of_uncaught
                  (click_listeners_links t s0) s0) as K.
    unfold keeps, links_of in K. injection K as K1 K2. rewrite K1, K2.
    destruct s; simpl. auto.
  - rewrite step_scroll. destruct s; simpl in *.
    destruct isScrolling0; simpl; split; auto.
    intros Hin. apply in_app_or in Hin. destruct Hin as [Hin|[Hin|[]]]; [auto|discriminate].
  - simpl.
    pose proof (run_listeners_keeps links_of _ links_of_uncaught
                  (frame_without_nav_callback _ H) (with_frameQueue s [])) as K.
    unfold keeps, links_of in K. injection K as K1 K2. rewrite K1, K2.
    destruct s; simpl. auto.
  - simpl. set (s0 := with_innerWidth s w).
    assert (Hl : Forall (preserves links_of) [resizeListener])
      by (each_listener; frame_any).
    pose proof (run_listeners_keeps links_of _ links_of_uncaught Hl s0) as K.
    unfold keeps, links_of in K. injection K as K1 K2. rewrite K1, K2.
    destruct s; simpl. auto.
  - simpl.
    assert (Hl : Forall (preserves links_of) [keydownListener key])
      by (each_listener; frame_any).
    pose proof (run_listeners_keeps links_of _ links_of_uncaught Hl s) as K.
    unfold keeps, links_of in K. injection K as K1 K2. rewrite K1, K2. auto.
  - simpl. unfold elapse.
    pose proof (run_timers_links (length (timers s)) (clock s + ms) s) as K.
    revert K. generalize (run_timers (length (timers s)) (clock s + ms) s).
    intros s1 K. unfold keeps, links_of in K. injection K as K1 K2.
    destruct s1; simpl in *. rewrite K1, K2. auto.
Qed.

(** C2, what the code does.  From a page with no highlight callback
    queued (as after load), no sequence of clicks, scrolls, frames,
    resizes, keys and timers ever changes a navigation link: the second
    scroll listener always finds the flag raised by the first, so
    [updateActiveNav] is never queued. *)
Theorem scroll_never_updates_links (s : Page) (evs : list Event) :
  ~ In CbUpdateActiveNav (frameQueue s) ->
  navLinkItems (run evs s) = navLinkItems s /\
  ~ In CbUpdateActiveNav (frameQueue (run evs s)).
Proof.
  unfold run. revert s. induction evs as [|ev evs IH]; intros s H; simpl.
  - auto.
  - destruct (step_without_nav_callback ev s H) as [A B].
    destruct (IH (step ev s) B) as [C D]. split; [congruence|exact D].
Qed.

(** The same on the example page: a scroll into the second section and a
    frame give the header its [scrolled] class and lower the flag, and
    leave every link unmarked, where a call of [updateActiveNav] on that
    very page marks the link to the second section. *)
Lemma scroll_tick_on_example :
  frameQueue (step (Scroll 700) Example.page) = [CbHandleScroll] /\
  option_map classList (header after_scroll) = Some ["header"; "scrolled"] /\
  isScrolling after_scroll = false /\
  map has_active (navLinkItems after_scroll) = [false; false; false; false] /\
  map has_active (navLinkItems (snd (updateActiveNav after_scroll)))
    = [false; true; false; false].
Proof. repeat split. Qed.

(** Scroll events that arrive before the frame add nothing to the queue,
    so [handleScroll] runs at most once per frame. *)
Lemma scroll_events_coalesce y s :
  isScrolling s = true ->
  frameQueue (step (Scroll y) s) = frameQueue s /\
  isScrolling (step (Scroll y) s) = true.
Proof.
  intros H. rewrite step_scroll, H. destruct s; simpl in *. auto.
Qed.

(* ================================================================== *)
(** ** Absent elements *)
(* ================================================================== *)

(** C3, as stated, fails.  Without the panel, Escape throws, and a resize
    to desktop width throws before the debounce timer is set; without
    the header the frame callback throws and leaves the throttle flag
    raised for good. *)
Lemma listeners_throw_without_panel_or_header :
  uncaught Example.pageNoPanel = 0%nat /\
  uncaught (step (KeyDown "Escape") Example.pageNoPanel) = 1%nat /\
  uncaught (step (Resize 1200) Example.pageNoPanel) = 1%nat /\
  timers (step (Resize 1200) Example.pageNoPanel) = [] /\
  uncaught Example.pageNoHeader = 0%nat /\
  uncaught (run [Scroll 200; AnimationFrame] Example.pageNoHeader) = 1%nat /\
  isScrolling (run [Scroll 200; AnimationFrame] Example.pageNoHeader) = true.
Proof. repeat split. Qed.

(** The check of line 47 is not repeated in the document's listener:
    without the toggle, a click on a phone throws at line 64. *)
Lemma document_click_throws_without_toggle :
  click_listeners (mkTarget None false true) Example.phoneNoToggle
    = [documentClick (mkTarget None false true)] /\
  documentClick elsewhere Example.phoneNoToggle = (Throw, Example.phoneNoToggle) /\
  uncaught (step (Click elsewhere) Example.phoneNoToggle) = 1%nat.
Proof. repeat split. Qed.

(* ================================================================== *)
(** ** The resize debounce *)
(* ================================================================== *)

Lemma resizeListener_split s :
  resizeListener s = bind resize_close (fun _ => rearm) s.
Proof.
  unfold resizeListener, resize_close, rearm, bind, gets. simpl.
  destruct ((if 768 <? innerWidth s then navLinks_is_active else ret false) s)
    as [[c|] s1]; reflexivity.
Qed.

Lemma resize_close_debounce : preserves debounce_of resize_close.
Proof. unfold resize_close. frame_any. Qed.

Lemma debounce_fields s s' :
  keeps debounce_of s s' ->
  timers s' = timers s /\ resizeTimer s' = resizeTimer s /\
  nextHandle s' = nextHandle s /\ clock s' = clock s /\ console s' = console s.
Proof.
  unfold keeps, debounce_of. intros H. injection H as A B C D E. auto.
Qed.

Lemma timer_invariant_ext s s' :
  keeps debounce_of s s' -> timer_invariant s -> timer_invariant s'.
Proof.
  intros H. apply debounce_fields in H. destruct H as (A & B & _).
  unfold timer_invariant. rewrite A, B. trivial.
Qed.

Lemma rearm_run s :
  timer_invariant s ->
  exists s',
    rearm s = (Normal tt, s') /\
    timers s' = [(nextHandle s, clock s + 250)] /\
    resizeTimer s' = Some (nextHandle s) /\
    clock s' = clock s /\ console s' = console s /\
    same_menu s s'.
Proof.
  intros Hinv. unfold rearm, bind, gets, clearTimeout, setTimeout, modify, ret.
  destruct s; simpl in *.
  destruct Hinv as [H|(h & due & Ht & Hr)]; simpl in *; subst.
  - destruct resizeTimer0; simpl; eexists; repeat split.
  - simpl. rewrite Nat.eqb_refl. simpl. eexists; repeat split.
Qed.

Lemma rearm_armed s s' :
  timers s' = [(nextHandle s, clock s + 250)] ->
  resizeTimer s' = Some (nextHandle s) -> clock s' = clock s -> armed s'.
Proof. intros A B C. exists (nextHandle s). rewrite C. auto. Qed.

Lemma armed_invariant s : armed s -> timer_invariant s.
Proof. intros (h & A & B). right. eauto. Qed.

(** One resize event, whatever the page: the listener either throws
    before it reaches the timer and leaves it alone, or leaves exactly
    its own fresh timeout pending. *)
Lemma step_resize_timer w s :
  timer_invariant s -> timer_invariant (step (Resize w) s).
Proof.
  intros Hinv. simpl. unfold run_listeners. simpl. unfold run_listener.
  set (s0 := with_innerWidth s w).
  assert (H0 : timer_invariant s0).
  { revert Hinv. apply timer_invariant_ext. destruct s; reflexivity. }
  rewrite resizeListener_split. unfold bind.
  pose proof (resize_close_debounce s0) as K.
  destruct (resize_close s0) as [[[]|] s1]; simpl in K.
  - pose proof (timer_invariant_ext _ _ K H0) as H1.
    destruct (rearm_run s1 H1) as (s2 & R & A & B & C & _). rewrite R.
    apply armed_invariant. eapply rearm_armed; eassumption.
  - apply (timer_invariant_ext s1); [destruct s1; reflexivity|].
    apply (timer_invariant_ext s0); assumption.
Qed.

Lemma timer_invariant_with_clock s c :
  timer_invariant s -> timer_invariant (with_clock s c).
Proof. destruct s. trivial. Qed.

Lemma elapse_timer ms s : timer_invariant s -> timer_invariant (elapse ms s).
Proof.
  intros Hinv. unfold elapse.
  assert (H : timer_invariant (run_timers (length (timers s)) (clock s + ms) s)).
  { destruct Hinv as [H|(h & due & Ht & Hr)].
    - rewrite H. simpl. left. exact H.
    - rewrite Ht. simpl. rewrite Ht. simpl.
      destruct (due <=? clock s + ms).
      + left. destruct s; simpl in *. rewrite Ht. simpl.
        rewrite Nat.eqb_refl. reflexivity.
      + right. eauto. }
  apply timer_invariant_with_clock, H.
Qed.

Lemma debounce_of_uncaught s n : debounce_of (with_uncaught s n) = debounce_of s.
Proof. destruct s. reflexivity. Qed.

Lemma click_listeners_debounce t s0 :
  Forall (preserves debounce_of) (click_listeners t s0).
Proof.
  unfold click_listeners. apply Forall_app; split; [|apply Forall_app; split].
  - destruct (on_link t) as [i|]; [|constructor].
    destruct (nth_error (navLinkItems s0) i) as [link|]; [|constructor].
    each_listener; frame_any.
  - destruct (menuToggle s0); [|constructor].
    destruct (in_menuToggle t); each_listener. frame_any.
  - each_listener. frame_any.
Qed.

Lemma run_callback_debounce cb : preserves debounce_of (run_callback cb).
Proof. destruct cb; simpl; frame_any. Qed.

Lemma step_timer_invariant ev s : timer_invariant s -> timer_invariant (step ev s).
Proof.
  intros Hinv. destruct ev as [t|y| |w|key|ms].
  - unfold step. set (s0 := with_defaultPrevented s false).
    apply (timer_invariant_ext s0).
    + apply run_listeners_keeps;
        [apply debounce_of_uncaught|apply click_listeners_debounce].
    + revert Hinv. apply timer_invariant_ext. destruct s; reflexivity.
  - rewrite step_scroll. revert Hinv. apply timer_invariant_ext.
    destruct s; simpl. destruct isScrolling0; reflexivity.
  - unfold step. apply (timer_invariant_ext (with_frameQueue s [])).
    + apply run_listeners_keeps; [apply debounce_of_uncaught|].
      apply Forall_forall. intros c Hc. apply in_map_iff in Hc.
      destruct Hc as (cb & <- & _). apply run_callback_debounce.
    + revert Hinv. apply timer_invariant_ext. destruct s; reflexivity.
  - apply step_resize_timer, Hinv.
  - unfold step. apply (timer_invariant_ext s); [|exact Hinv].
    apply run_listeners_keeps; [apply debounce_of_uncaught|].
    each_listener. frame_any.
  - apply elapse_timer, Hinv.
Qed.

Lemma run_timer_invariant evs s : timer_invariant s -> timer_invariant (run evs s).
Proof.
  unfold run. revert s. induction evs as [|ev evs IH]; intros s H; simpl.
  - exact H.
  - apply IH, step_timer_invariant, H.
Qed.

Lemma timer_invariant_length s : timer_invariant s -> (length (timers s) <= 1)%nat.
Proof.
  intros [H|(h & due & H & _)]; rewrite H; simpl; lia.
Qed.

Lemma resize_close_run s :
  menu_present s ->
  resize_close s =
    if (768 <? innerWidth s) && nav_active s then closeMenu s else (Normal tt, s).
Proof.
  intros Hp. destruct (menu_present_inv s Hp) as (nl & mt & Hnl & Hmt).
  destruct s; simpl in *; subst.
  cbv [resize_close nav_active has_active navLinks_is_active bind gets when ret
       deref throw navLinks innerWidth].
  destruct (768 <? innerWidth0); simpl; try reflexivity.
  destruct (ClassList.contains "active" (classList nl)); reflexivity.
Qed.

Lemma step_resize_armed w s :
  menu_present s -> timer_invariant s ->
  armed (step (Resize w) s) /\ menu_present (step (Resize w) s) /\
  clock (step (Resize w) s) = clock s /\
  console (step (Resize w) s) = console s.
Proof.
  intros Hp Hinv. simpl. unfold run_listeners. simpl. unfold run_listener.
  set (s0 := with_innerWidth s w).
  assert (H0 : keeps debounce_of s s0) by (destruct s; reflexivity).
  assert (Hp0 : menu_present s0).
  { revert Hp. apply same_menu_present. destruct s; reflexivity. }
  rewrite resizeListener_split. unfold bind.
  pose proof (resize_close_debounce s0) as K.
  assert (Hn : exists s1, resize_close s0 = (Normal tt, s1) /\ menu_present s1).
  { rewrite (resize_close_run s0 Hp0). destruct (_ && _); [|eauto].
    destruct (menu_present_inv s0 Hp0) as (nl & mt & Hnl & Hmt).
    rewrite (closeMenu_run s0 nl mt Hnl Hmt). eexists. split; [reflexivity|].
    apply set_menu_present. }
  destruct Hn as (s1 & R1 & Hp1). rewrite R1 in K |- *. simpl in K.
  pose proof (keeps_trans debounce_of s s0 s1 H0 K) as K1.
  pose proof (timer_invariant_ext _ _ K1 Hinv) as H1.
  apply debounce_fields in K1. destruct K1 as (_ & _ & _ & Kc & Kl).
  destruct (rearm_run s1 H1) as (s2 & R & A & B & C & D & E). rewrite R.
  repeat split.
  - eapply rearm_armed; eassumption.
  - apply (same_menu_present s1 s2 E), Hp1.
  - apply (same_menu_present s1 s2 E), Hp1.
  - congruence.
  - congruence.
Qed.

(** Within the delay nothing fires. *)
Lemma elapse_short g s :
  armed s -> 0 <= g < 250 -> elapse g s = with_clock s (clock s + g).
Proof.
  intros (h & Ht & _) Hg. unfold elapse. rewrite Ht. simpl. rewrite Ht. simpl.
  destruct (clock s + 250 <=? clock s + g) eqn:E; [|reflexivity].
  apply Z.leb_le in E. lia.
Qed.

(** After the delay the one pending timeout fires, at the time it is due. *)
Lemma elapse_long d s :
  armed s -> 250 <= d ->
  console (elapse d s) = (console s ++ [(clock s + 250, "Window resized")])%list /\
  timers (elapse d s) = [].
Proof.
  intros (h & Ht & _) Hd. unfold elapse. rewrite Ht. simpl. rewrite Ht. simpl.
  destruct (clock s + 250 <=? clock s + d) eqn:E.
  - destruct s; simpl in *. rewrite Ht. simpl. rewrite Nat.eqb_refl. auto.
  - apply Z.leb_gt in E. lia.
Qed.

Lemma run_app evs1 evs2 s : run (evs1 ++ evs2) s = run evs2 (run evs1 s).
Proof. unfold run. apply fold_left_app. Qed.

Lemma run_cons ev evs s : run (ev :: evs) s = run evs (step ev s).
Proof. reflexivity. Qed.

Lemma step_elapse ms s : step (Elapse ms) s = elapse ms s.
Proof. reflexivity. Qed.

Lemma burst_cons g w rest :
  burst ((g, w) :: rest) = Elapse g :: Resize w :: burst rest.
Proof. reflexivity. Qed.

Lemma burst_run rest :
  forall s,
    menu_present s -> armed s -> rapid rest ->
    armed (run (burst rest) s) /\ menu_present (run (burst rest) s) /\
    clock (run (burst rest) s) = clock s + total_gap rest /\
    console (run (burst rest) s) = console s.
Proof.
  induction rest as [|[g w] rest IH]; intros s Hp Ha Hr.
  - simpl. split; [exact Ha|]. split; [exact Hp|]. split; [lia|reflexivity].
  - inversion Hr as [|p ps Hg Hr']; subst. simpl in Hg.
    rewrite burst_cons, !run_cons, step_elapse.
    rewrite (elapse_short g s Ha Hg).
    set (s1 := with_clock s (clock s + g)).
    assert (Hp1 : menu_present s1).
    { revert Hp. apply same_menu_present. destruct s; reflexivity. }
    assert (Hi1 : timer_invariant s1).
    { apply timer_invariant_with_clock, armed_invariant, Ha. }
    assert (Hc1 : clock s1 = clock s + g /\ console s1 = console s)
      by (destruct s; split; reflexivity).
    destruct Hc1 as [Hc1 Hl1].
    destruct (step_resize_armed w s1 Hp1 Hi1) as (A & B & C & D).
    destruct (IH (step (Resize w) s1) B A Hr') as (A' & B' & C' & D').
    split; [exact A'|]. split; [exact B'|]. split.
    + rewrite C', C, Hc1. simpl. lia.
    + rewrite D', D. exact Hl1.
Qed.

(** C7. From a state where at most the held timeout is pending (as after
    load), at most one timeout is pending after every sequence of
    events.  With both menu elements in the document, a burst of resize
    events, each less than 250ms after the one before, followed by at
    least 250ms of quiet, logs the diagnostic exactly once, 250ms after
    the last resize of the burst, and leaves no timeout pending. *)
Theorem resize_debounce (s : Page) :
  timer_invariant s ->
  (forall evs, (length (timers (run evs s)) <= 1)%nat) /\
  (forall w0 rest d,
     menu_present s -> rapid rest -> 250 <= d ->
     console (run (Resize w0 :: burst rest ++ [Elapse d]) s) =
       (console s ++ [(clock s + total_gap rest + 250, "Window resized")])%list /\
     timers (run (Resize w0 :: burst rest ++ [Elapse d]) s) = []).
Proof.
  intros Hinv. split.
  - intros evs. apply timer_invariant_length, run_timer_invariant, Hinv.
  - intros w0 rest d Hp Hr Hd.
    rewrite run_cons, run_app.
    destruct (step_resize_armed w0 s Hp Hinv) as (A & B & C & D).
    destruct (burst_run rest _ B A Hr) as (A' & _ & C' & D').
    set (s1 := run (burst rest) (step (Resize w0) s)) in *.
    change (run [Elapse d] s1) with (elapse d s1).
    destruct (elapse_long d s1 A' Hd) as [E F].
    split; [|exact F]. rewrite E, D', D, C', C. reflexivity.
Qed.

(* ================================================================== *)
(** ** Totality on a complete document *)
(* ================================================================== *)

Lemma complete_ext s s' :
  menu_present s' -> header s' = header s ->
  map attr_href (navLinkItems s') = map attr_href (navLinkItems s) ->
  complete s -> complete s'.
Proof.
  intros Hp Hh Hl (_ & B & C). unfold complete. rewrite Hh, Hl. auto.
Qed.

Lemma complete_set_menu nl mt ov s : complete s -> complete (set_menu nl mt ov s).
Proof.
  apply complete_ext; [apply set_menu_present|destruct s; reflexivity..].
Qed.

Lemma safe_ret : safe (ret tt).
Proof. intros s H. exists s. split; [reflexivity|exact H]. Qed.

Lemma safe_closeMenu : safe closeMenu.
Proof.
  intros s H. destruct (menu_present_inv s (proj1 H)) as (nl & mt & Hnl & Hmt).
  rewrite (closeMenu_run s nl mt Hnl Hmt). eexists. split; [reflexivity|].
  apply complete_set_menu, H.
Qed.

Lemma safe_toggleMenu : safe toggleMenu.
Proof.
  intros s H. destruct (menu_present_inv s (proj1 H)) as (nl & mt & Hnl & Hmt).
  rewrite (toggleMenu_run s nl mt Hnl Hmt). eexists. split; [reflexivity|].
  apply complete_set_menu, H.
Qed.

Lemma safe_linkClickClose : safe linkClickClose.
Proof.
  intros s H. rewrite linkClickClose_run.
  destruct (innerWidth s <=? 768); [apply safe_closeMenu|apply safe_ret]; exact H.
Qed.

Lemma safe_documentClick t : safe (documentClick t).
Proof.
  intros s H. rewrite documentClick_run by apply H.
  destruct (_ && _); [apply safe_closeMenu|apply safe_ret]; exact H.
Qed.

Lemma safe_keydownListener key : safe (keydownListener key).
Proof.
  intros s H. rewrite keydownListener_run by apply H.
  destruct (_ && _); [apply safe_closeMenu|apply safe_ret]; exact H.
Qed.

Lemma complete_same s s' :
  navLinks s' = navLinks s -> menuToggle s' = menuToggle s ->
  header s' = header s -> navLinkItems s' = navLinkItems s ->
  complete s -> complete s'.
Proof.
  intros A B C D. unfold complete, menu_present. rewrite A, B, C, D. trivial.
Qed.

Lemma safe_rearm : safe rearm.
Proof.
  intros s H. unfold rearm, bind, gets, clearTimeout, setTimeout, modify, ret.
  destruct s; simpl.
  destruct resizeTimer0; simpl; eexists; (split; [reflexivity|]);
    revert H; apply complete_same; reflexivity.
Qed.

Lemma safe_resizeListener : safe resizeListener.
Proof.
  intros s H. rewrite resizeListener_split. unfold bind.
  rewrite (resize_close_run s (proj1 H)).
  destruct (_ && _).
  - destruct (safe_closeMenu s H) as (s1 & R & H1). rewrite R.
    apply safe_rearm, H1.
  - apply safe_rearm, H.
Qed.

Lemma safe_smoothScrollClick link :
  attr_href link <> None -> safe (smoothScrollClick link).
Proof.
  intros Hl s H. destruct (attr_href link) as [href|] eqn:Eh; [|contradiction].
  pose proof H as (_ & Hh & _).
  destruct (header s) as [h|] eqn:Ehd; [|contradiction].
  unfold smoothScrollClick. rewrite Eh.
  unfold bind at 1, deref at 1, ret at 1, when.
  destruct (startsWith "#" href); [|exists s; split; [reflexivity|exact H]].
  unfold bind at 1, gets at 1.
  destruct (getElementById (substring1 href) (byId s)) as [target|];
    [|exists s; split; [reflexivity|exact H]].
  unfold preventDefault, scrollTo, bind, modify, deref, ret.
  destruct s; simpl in *; subst. eexists. split; [reflexivity|].
  revert H. apply complete_same; reflexivity.
Qed.

Lemma safe_scrollListenerHeader : safe scrollListenerHeader.
Proof.
  intros s H. unfold scrollListenerHeader, requestAnimationFrame, bind, gets,
    when, modify, ret.
  destruct s; simpl.
  destruct isScrolling0; simpl; eexists; (split; [reflexivity|]);
    revert H; apply complete_same; reflexivity.
Qed.

Lemma safe_scrollListenerNav : safe scrollListenerNav.
Proof.
  intros s H. unfold scrollListenerNav, requestAnimationFrame, bind, gets,
    when, modify, ret.
  destruct s; simpl.
  destruct isScrolling0; simpl; eexists; (split; [reflexivity|]);
    revert H; apply complete_same; reflexivity.
Qed.

Lemma highlight_hrefs pos secs links :
  map attr_href (highlight pos secs links) = map attr_href links.
Proof.
  unfold highlight. revert links.
  induction secs as [|x secs IH]; intros links; simpl; [reflexivity|].
  rewrite IH. destruct (span_contains pos x); [|reflexivity].
  rewrite map_map. apply map_ext. intros l. apply attr_href_mark_link.
Qed.

Lemma safe_run_callback cb : safe (run_callback cb).
Proof.
  intros s H. destruct cb; simpl.
  - pose proof H as (_ & Hh & _).
    destruct (header s) as [h|] eqn:Ehd; [|contradiction].
    destruct s; simpl in *; subst.
    cbv [bind handleScroll on_header gets modify deref ret header scrollY].
    destruct (100 <? scrollY0); simpl; eexists; (split; [reflexivity|]);
      destruct H as (Hp & _ & Ha); (split; [exact Hp|]);
      (split; [discriminate|exact Ha]).
  - rewrite updateActiveNav_run. eexists. split; [reflexivity|].
    apply (complete_ext s); [| | |exact H].
    + eapply same_menu_present; [|apply H]. destruct s; reflexivity.
    + destruct s; reflexivity.
    + rewrite navLinkItems_with. apply highlight_hrefs.
Qed.

(** No listener touches the count of uncaught exceptions itself. *)
Lemma listeners_quiet :
  preserves uncaught linkClickClose /\
  (forall link, preserves uncaught (smoothScrollClick link)) /\
  preserves uncaught toggleMenu /\
  (forall t, preserves uncaught (documentClick t)) /\
  preserves uncaught scrollListenerHeader /\
  preserves uncaught scrollListenerNav /\
  (forall cb, preserves uncaught (run_callback cb)) /\
  preserves uncaught resizeListener /\
  (forall key, preserves uncaught (keydownListener key)).
Proof.
  repeat split; try intro; try (destruct cb; simpl); frame_any.
Qed.

(** Safe listeners report nothing and keep the document complete. *)
Lemma run_listeners_safe ls :
  Forall safe ls -> Forall (preserves uncaught) ls ->
  forall s, complete s ->
    uncaught (run_listeners ls s) = uncaught s /\ complete (run_listeners ls s).
Proof.
  induction 1 as [|c ls Hc _ IH]; intros Hq s H.
  - split; [reflexivity|exact H].
  - inversion Hq as [|c' ls' Hqc Hqls]; subst.
    rewrite run_listeners_cons. unfold run_listener.
    destruct (Hc s H) as (s1 & R & H1). specialize (Hqc s). rewrite R in Hqc |- *.
    destruct (IH Hqls s1 H1) as [A B]. split; [|exact B].
    rewrite A. exact Hqc.
Qed.

Lemma complete_link s i link :
  complete s -> nth_error (navLinkItems s) i = Some link -> attr_href link <> None.
Proof.
  intros (_ & _ & Ha) Hn Hl. apply Ha. rewrite <- Hl.
  apply in_map. eapply nth_error_In. exact Hn.
Qed.

Lemma step_safe ev s :
  complete s -> uncaught (step ev s) = uncaught s /\ complete (step ev s).
Proof.
  intros H.
  destruct listeners_quiet as (Q1 & Q2 & Q3 & Q4 & Q5 & Q6 & Q7 & Q8 & Q9).
  destruct ev as [t|y| |w|key|ms].
  - rewrite step_click. set (s0 := with_defaultPrevented s false).
    assert (H0 : complete s0) by (revert H; apply complete_same; destruct s; reflexivity).
    assert (U0 : uncaught s0 = uncaught s) by (destruct s; reflexivity).
    rewrite <- U0. apply run_listeners_safe; [| |exact H0]; unfold click_listeners.
    + apply Forall_app; split; [|apply Forall_app; split].
      * destruct (on_link t) as [i|]; [|constructor].
        destruct (nth_error (navLinkItems s0) i) as [link|] eqn:En; [|constructor].
        each_listener; [apply safe_linkClickClose|].
        apply safe_smoothScrollClick. eapply complete_link; eassumption.
      * destruct (menuToggle s0); [|constructor].
        destruct (in_menuToggle t); each_listener. apply safe_toggleMenu.
      * each_listener. apply safe_documentClick.
    + apply Forall_app; split; [|apply Forall_app; split].
      * destruct (on_link t) as [i|]; [|constructor].
        destruct (nth_error (navLinkItems s0) i) as [link|]; [|constructor].
        each_listener; auto.
      * destruct (menuToggle s0); [|constructor].
        destruct (in_menuToggle t); each_listener. exact Q3.
      * each_listener. apply Q4.
  - unfold step. set (s0 := with_scrollY s y).
    assert (H0 : complete s0) by (revert H; apply complete_same; destruct s; reflexivity).
    assert (U0 : uncaught s0 = uncaught s) by (destruct s; reflexivity).
    rewrite <- U0. apply run_listeners_safe; [| |exact H0]; each_listener;
      auto using safe_scrollListenerHeader, safe_scrollListenerNav.
  - unfold step. set (s0 := with_frameQueue s []).
    assert (H0 : complete s0) by (revert H; apply complete_same; destruct s; reflexivity).
    assert (U0 : uncaught s0 = uncaught s) by (destruct s; reflexivity).
    rewrite <- U0. apply run_listeners_safe; [| |exact H0];
      apply Forall_forall; intros c Hc; apply in_map_iff in Hc;
      destruct Hc as (cb & <- & _); [apply safe_run_callback|apply Q7].
  - unfold step. set (s0 := with_innerWidth s w).
    assert (H0 : complete s0) by (revert H; apply complete_same; destruct s; reflexivity).
    assert (U0 : uncaught s0 = uncaught s) by (destruct s; reflexivity).
    rewrite <- U0. apply run_listeners_safe; [| |exact H0]; each_listener;
      auto using safe_resizeListener.
  - unfold step. apply run_listeners_safe; [| |exact H]; each_listener;
      auto using safe_keydownListener.
  - unfold step, elapse.
    generalize (clock s + ms) as until. generalize (length (timers s)) as fuel.
    intros fuel until.
    assert (G : forall n s1, complete s1 ->
                uncaught (run_timers n until s1) = uncaught s1 /\
                complete (run_timers n until s1)).
    { induction n as [|n IH]; intros s1 H1; simpl; [auto|].
      destruct (earliest (timers s1)) as [tm|]; [|auto].
      destruct (snd tm <=? until); [|auto].
      assert (Hf : complete (fire tm s1))
        by (revert H1; apply complete_same; destruct s1; reflexivity).
      destruct (IH _ Hf) as [A B]. split; [|exact B].
      rewrite A. destruct s1; reflexivity. }
    destruct (G fuel s H) as [A B]. split.
    + rewrite <- A. generalize (run_timers fuel until s). intros []. reflexivity.
    + revert B. apply complete_same;
        generalize (run_timers fuel until s); intros []; reflexivity.
Qed.

Lemma run_safe evs :
  forall s, complete s -> uncaught (run evs s) = uncaught s /\ complete (run evs s).
Proof.
  induction evs as [|ev evs IH]; intros s H.
  - split; [reflexivity|exact H].
  - rewrite run_cons. destruct (step_safe ev s H) as [A B].
    destruct (IH _ B) as [C D]. split; [congruence|exact D].
Qed.

(** With the toggle missing, its listener is not attached: on a desktop
    window a click outside the navigation anchors does nothing at all. *)
Lemma click_without_toggle t s :
  menuToggle s = None -> 768 < innerWidth s -> on_link t = None ->
  step (Click t) s = with_defaultPrevented s false.
Proof.
  intros Hm Hw Hl. rewrite step_click. unfold click_listeners. rewrite Hl.
  replace (menuToggle (with_defaultPrevented s false)) with (@None Element)
    by (destruct s; simpl in *; congruence).
  change (run_listeners ([] ++ [] ++ [documentClick t])%list ?x)
    with (run_listener (documentClick t) x).
  unfold run_listener, documentClick, bind, gets, when.
  replace (innerWidth (with_defaultPrevented s false) <=? 768) with false.
  - reflexivity.
  - symmetry. apply Z.leb_gt. destruct s; simpl in *. exact Hw.
Qed.

(** C3 (amended). On a document that has the toggle control, the link
    panel and the header, and whose navigation anchors all have an href,
    no sequence of events ends a listener in an uncaught error, and the
    document stays that way.  Of the three elements only the toggle is
    checked for: when it is missing, [toggleMenu] is not attached, and on
    a window wider than 768 a click outside the navigation anchors does
    nothing. *)
Theorem handlers_total_on_complete_document (s : Page) :
  (complete s ->
   forall evs, uncaught (run evs s) = uncaught s /\ complete (run evs s)) /\
  (menuToggle s = None -> 768 < innerWidth s ->
   forall t, on_link t = None -> step (Click t) s = with_defaultPrevented s false).
Proof.
  split.
  - intros H evs. apply run_safe, H.
  - intros Hm Hw t Hl. apply click_without_toggle; assumption.
Qed.


(* ================================================================== *)
(** ** The theorems at work on the example pages *)
(* ================================================================== *)

Lemma example_menu_present : menu_present Example.page.
Proof. split; discriminate. Qed.

Lemma example_links_distinct : NoDup (map attr_href (navLinkItems Example.page)).
Proof.
  simpl. repeat constructor; simpl; intuition discriminate.
Qed.

(** At the top of the example page the first section is the match: the
    run marks its link alone. *)
Lemma updateActiveNav_non_overlapping_witness :
  non_overlapping (sections Example.page) /\
  exists links',
    updateActiveNav Example.page
      = (Normal tt, with_navLinkItems Example.page links') /\
    Forall2 (marked_for Example.homeSection) (navLinkItems Example.page) links' /\
    (count_active links' <= 1)%nat.
Proof.
  split; [exact example_sections_non_overlapping|].
  destruct (proj1 (updateActiveNav_non_overlapping Example.page
                     example_sections_non_overlapping)
              Example.homeSection (or_introl eq_refl) eq_refl)
    as (links' & R & M & C).
  exists links'. split; [exact R|]. split; [exact M|].
  exact (C example_links_distinct).
Defined.

(** Any three events on the example page leave its links alone. *)
Lemma scroll_never_updates_links_witness :
  navLinkItems (run [Scroll 700; AnimationFrame; Scroll 1200] Example.page)
    = navLinkItems Example.page /\
  ~ In CbUpdateActiveNav
      (frameQueue (run [Scroll 700; AnimationFrame; Scroll 1200] Example.page)).
Proof.
  apply (scroll_never_updates_links Example.page
           [Scroll 700; AnimationFrame; Scroll 1200]).
  simpl. intros [].
Defined.

(** C4, as stated, fails.  On markup whose toggle has no [aria-expanded]
    attribute two toggles leave [aria-expanded="false"] behind. *)
Lemma toggleMenu_twice_adds_aria :
  exists s1 s2,
    toggleMenu Example.pageNoAria = (Normal tt, s1) /\
    toggleMenu s1 = (Normal tt, s2) /\
    menu_view Example.pageNoAria = (false, false, None, "") /\
    menu_view s2 = (false, false, Some "false", "").
Proof. do 2 eexists. repeat split. Qed.

(** C8, as stated, fails.  On markup whose toggle has no [aria-expanded]
    attribute the menu is closed (no [active] class on panel or toggle,
    no scroll lock, the synchronisation invariant holds), yet [closeMenu]
    is no no-op: it leaves [aria-expanded="false"] behind. *)
Lemma closeMenu_adds_aria_to_closed_menu :
  menu_present Example.pageNoAria /\
  sync_invariant Example.pageNoAria /\
  menu_view Example.pageNoAria = (false, false, None, "") /\
  exists s',
    closeMenu Example.pageNoAria = (Normal tt, s') /\
    menu_view s' = (false, false, Some "false", "").
Proof.
  split; [split; discriminate|].
  split; [split; intros H; [discriminate H|split; discriminate]|].
  split; [reflexivity|].
  eexists. split; reflexivity.
Qed.

Lemma toggleMenu_twice_witness :
  exists s1 s2,
    toggleMenu Example.page = (Normal tt, s1) /\
    toggleMenu s1 = (Normal tt, s2) /\
    nav_active s2 = nav_active Example.page /\
    toggle_active s2 = toggle_active Example.page /\
    same_outside_menu Example.page s2 /\
    (menu_view s2 = menu_view Example.page <-> menu_synced Example.page).
Proof.
  apply (toggleMenu_twice Example.page Example.navPanel Example.toggleButton);
    reflexivity.
Defined.

(** Open the menu on the phone, press Escape, open it again, turn the
    phone: the invariant holds at the end. *)
Lemma sync_invariant_preserved_witness :
  (exists s', toggleMenu Example.phone = (Normal tt, s') /\ sync_invariant s') /\
  (exists s', closeMenu Example.phone = (Normal tt, s') /\ sync_invariant s') /\
  sync_invariant
    (run [Click (mkTarget None false true); KeyDown "Escape";
          Click (mkTarget None false true); Resize 900] Example.phone).
Proof.
  assert (Hp : menu_present Example.phone) by (split; discriminate).
  assert (Hi : sync_invariant Example.phone).
  { split; intros H; [discriminate H|]. split; discriminate. }
  destruct (sync_invariant_preserved Example.phone Hp Hi) as (A & B & C).
  split; [exact A|]. split; [exact B|].
  exact (proj1 (C [Click (mkTarget None false true); KeyDown "Escape";
                   Click (mkTarget None false true); Resize 900])).
Defined.

(** The link to the second section of the example page: the click is
    cancelled and the window is sent to 600 - 80. *)
Lemma smooth_scroll_click_witness :
  defaultPrevented (step (Click on_about_link) Example.page) = true /\
  scrollRequests (step (Click on_about_link) Example.page) = [520].
Proof.
  apply (smooth_scroll_click Example.page on_about_link 1
           (Example.anchor "#about") Example.headerBar "about");
    reflexivity.
Defined.

(** Three resizes 100ms and 200ms apart, then 300ms of quiet: one line
    in the console, at 100 + 200 + 250. *)
Lemma resize_debounce_witness :
  console (run (Resize 900 :: burst [(100, 700); (200, 1100)] ++ [Elapse 300])
             Example.page)
    = [(550, "Window resized")] /\
  timers (run (Resize 900 :: burst [(100, 700); (200, 1100)] ++ [Elapse 300])
            Example.page) = [].
Proof.
  apply (proj2 (resize_debounce Example.page (or_introl eq_refl))
           900 [(100, 700); (200, 1100)] 300).
  - split; discriminate.
  - repeat constructor; simpl; lia.
  - lia.
Defined.

Lemma closeMenu_idempotent_witness :
  menu_closed Example.page /\
  closeMenu Example.page = (Normal tt, Example.page).
Proof.
  assert (Hc : menu_closed Example.page) by (repeat split).
  split; [exact Hc|].
  apply (proj1 (proj2 (closeMenu_idempotent Example.page) example_menu_present) Hc).
Defined.

(** Both sections of the overlapping page contain position 550; the
    second one decides. *)
Lemma updateActiveNav_last_match_wins_witness :
  span_contains (scrollPos Overlap.page) Overlap.first = true /\
  span_contains (scrollPos Overlap.page) Overlap.second = true /\
  exists links',
    updateActiveNav Overlap.page = (Normal tt, with_navLinkItems Overlap.page links') /\
    Forall2 (marked_for Overlap.second) (navLinkItems Overlap.page) links'.
Proof.
  split; [reflexivity|]. split; [reflexivity|].
  apply (updateActiveNav_last_match_wins Overlap.page [Overlap.first] [] Overlap.second).
  - reflexivity.
  - reflexivity.
  - constructor.
Defined.

(** On the desktop page a click elsewhere leaves the menu alone. *)
Lemma click_elsewhere_witness :
  defaultPrevented (step (Click elsewhere) Example.page) = false /\
  scrollRequests (step (Click elsewhere) Example.page) = [] /\
  same_menu Example.page (step (Click elsewhere) Example.page).
Proof.
  destruct (click_elsewhere Example.page elsewhere eq_refl eq_refl)
    as (_ & A & B & C & _).
  split; [exact A|]. split; [exact B|]. exact (C eq_refl).
Defined.

Lemma example_complete : complete Example.page.
Proof.
  split; [split; discriminate|]. split; [discriminate|].
  simpl. intuition discriminate.
Qed.

(** A session on the example page ends without an uncaught error; on the
    desktop page without a toggle a click elsewhere does nothing. *)
Lemma handlers_total_on_complete_document_witness :
  uncaught (run [Click on_about_link; Scroll 700; AnimationFrame;
                 KeyDown "Escape"; Resize 500; Elapse 300] Example.page) = 0%nat /\
  step (Click elsewhere) desktopNoToggle = with_defaultPrevented desktopNoToggle false.
Proof.
  split.
  - exact (proj1 (proj1 (handlers_total_on_complete_document Example.page)
                    example_complete
                    [Click on_about_link; Scroll 700; AnimationFrame;
                     KeyDown "Escape"; Resize 500; Elapse 300])).
  - apply (proj2 (handlers_total_on_complete_document desktopNoToggle)).
    + reflexivity.
    + reflexivity.
    + reflexivity.
Defined.

(* ================================================================== *)
(** ** The header's scroll effect *)
(* ================================================================== *)

Lemma contains_add_other c tok l :
  c <> tok -> ClassList.contains c (ClassList.add tok l) = ClassList.contains c l.
Proof.
  intros Hne. unfold ClassList.add. destruct (ClassList.contains tok l); [reflexivity|].
  rewrite ClassListFacts.contains_app. simpl.
  destruct (String.eqb c tok) eqn:E.
  - apply String.eqb_eq in E. contradiction.
  - rewrite !orb_false_r. reflexivity.
Qed.

Lemma add_idem tok l : ClassList.add tok (ClassList.add tok l) = ClassList.add tok l.
Proof.
  unfold ClassList.add at 1. rewrite ClassListFacts.contains_add. reflexivity.
Qed.

(** Names the fields of a page. *)
Ltac destruct_page s :=
  destruct s as [p_toggle p_panel p_header p_links p_sections p_ids p_overflow
                 p_width p_y p_requests p_scrolling p_timer p_prevented p_queue
                 p_timers p_next p_clock p_console p_uncaught].

Lemma handleScroll_run s h :
  header s = Some h ->
  handleScroll s =
    (Normal tt,
     with_header s
       (Some (set_classList
                (if 100 <? scrollY s
                 then ClassList.add "scrolled" else ClassList.remove "scrolled") h))).
Proof.
  intros Hh. destruct_page s; simpl in *; subst.
  cbv [handleScroll on_header bind gets modify deref ret header scrollY].
  destruct (100 <? p_y); reflexivity.
Qed.

(** X1. On a page with a header, [handleScroll] returns normally and
    changes the header's class list only: afterwards the header has the
    class [scrolled] exactly when [scrollY] is above 100, every other
    class is present exactly when it was before, and a second call
    changes nothing more. *)
Theorem handleScroll_marks_header (s : Page) (h : Element) :
  header s = Some h ->
  exists cl,
    handleScroll s = (Normal tt, with_header s (Some (set_classList (fun _ => cl) h))) /\
    (ClassList.contains "scrolled" cl = true <-> 100 < scrollY s) /\
    (forall c, c <> "scrolled" ->
       ClassList.contains c cl = ClassList.contains c (classList h)) /\
    handleScroll (with_header s (Some (set_classList (fun _ => cl) h)))
      = (Normal tt, with_header s (Some (set_classList (fun _ => cl) h))).
Proof.
  intros Hh. rewrite (handleScroll_run s h Hh).
  exists ((if 100 <? scrollY s
           then ClassList.add "scrolled" else ClassList.remove "scrolled")
            (classList h)).
  split; [reflexivity|]. split; [|split].
  - destruct (100 <? scrollY s) eqn:E.
    + rewrite ClassListFacts.contains_add. apply Z.ltb_lt in E. tauto.
    + rewrite ClassListFacts.contains_remove_same. apply Z.ltb_ge in E.
      split; [discriminate|lia].
  - intros c Hc. destruct (100 <? scrollY s).
    + apply contains_add_other, Hc.
    + apply ClassListFacts.contains_remove_other, Hc.
  - set (cl := (if 100 <? scrollY s
                then ClassList.add "scrolled" else ClassList.remove "scrolled")
                 (classList h)).
    set (h1 := set_classList (fun _ => cl) h).
    rewrite (handleScroll_run (with_header s (Some h1)) h1)
      by (destruct_page s; reflexivity).
    replace (scrollY (with_header s (Some h1))) with (scrollY s)
      by (destruct_page s; reflexivity).
    subst h1 cl. destruct_page s; simpl. unfold set_classList; simpl.
    destruct (100 <? p_y).
    + rewrite add_idem. reflexivity.
    + rewrite ClassListFacts.remove_idem. reflexivity.
Qed.

Lemma handleScroll_marks_header_witness :
  exists cl,
    handleScroll (with_scrollY Example.page 101)
      = (Normal tt,
         with_header (with_scrollY Example.page 101)
           (Some (set_classList (fun _ => cl) Example.headerBar))) /\
    ClassList.contains "scrolled" cl = true /\
    ClassList.contains "header" cl = true.
Proof.
  destruct (handleScroll_marks_header (with_scrollY Example.page 101)
              Example.headerBar eq_refl) as (cl & R & A & B & _).
  exists cl. split; [exact R|]. split.
  - apply A. reflexivity.
  - rewrite B; [reflexivity|discriminate].
Defined.

(* ================================================================== *)
(** ** The scroll throttle with a header *)
(* ================================================================== *)

Lemma click_listeners_preserves {F} (f : Page -> F) t s0 :
  preserves f linkClickClose ->
  (forall link, preserves f (smoothScrollClick link)) ->
  preserves f toggleMenu ->
  preserves f (documentClick t) ->
  Forall (preserves f) (click_listeners t s0).
Proof.
  intros H1 H2 H3 H4. unfold click_listeners.
  apply Forall_app; split; [|apply Forall_app; split].
  - destruct (on_link t) as [i|]; [|constructor].
    destruct (nth_error (navLinkItems s0) i) as [link|]; [|constructor].
    each_listener; auto.
  - destruct (menuToggle s0); [|constructor].
    destruct (in_menuToggle t); each_listener. exact H3.
  - each_listener. exact H4.
Qed.

Lemma throttle_of_uncaught s n : throttle_of (with_uncaught s n) = throttle_of s.
Proof. destruct_page s. reflexivity. Qed.

Lemma throttle_invariant_ext s s' :
  keeps throttle_of s s' -> throttle_invariant s -> throttle_invariant s'.
Proof.
  unfold keeps, throttle_of, throttle_invariant. intros H.
  injection H as A B. rewrite A, B. trivial.
Qed.

Lemma run_timers_throttle fuel until s : keeps throttle_of s (run_timers fuel until s).
Proof.
  revert s. induction fuel as [|n IH]; intros s; simpl; [apply keeps_refl|].
  destruct (earliest (timers s)) as [t|]; [|apply keeps_refl].
  destruct (snd t <=? until); [|apply keeps_refl].
  apply (keeps_trans throttle_of s (fire t s)); [destruct_page s; reflexivity|apply IH].
Qed.

Lemma step_scroll_throttle y s :
  throttle_invariant s ->
  isScrolling (step (Scroll y) s) = true /\
  frameQueue (step (Scroll y) s) = [CbHandleScroll] /\
  scrollY (step (Scroll y) s) = y /\
  header (step (Scroll y) s) = header s.
Proof.
  intros H. rewrite step_scroll. destruct_page s; simpl in *.
  destruct H as [[A B]|[A B]]; simpl in *; subst; simpl; auto.
Qed.

Lemma step_frame_throttle s h :
  header s = Some h -> throttle_invariant s ->
  isScrolling (step AnimationFrame s) = false /\
  frameQueue (step AnimationFrame s) = [] /\
  (isScrolling s = true ->
   header_scrolled (step AnimationFrame s) = (100 <? scrollY s)).
Proof.
  intros Hh H. unfold step.
  destruct H as [[A B]|[A B]]; rewrite B; simpl map.
  - change (run_listeners [] ?x) with x. destruct_page s; simpl in *.
    subst. repeat split. discriminate.
  - change (run_listeners [?c] ?x) with (run_listener c x).
    unfold run_listener, run_callback, bind.
    rewrite (handleScroll_run (with_frameQueue s []) h)
      by (destruct_page s; exact Hh).
    unfold modify. unfold header_scrolled.
    destruct_page s; simpl in *. split; [reflexivity|]. split; [reflexivity|].
    intros _. destruct (100 <? p_y).
    + apply ClassListFacts.contains_add.
    + apply ClassListFacts.contains_remove_same.
Qed.

Lemma step_throttle ev s :
  complete s -> throttle_invariant s -> throttle_invariant (step ev s).
Proof.
  intros Hc H. destruct ev as [t|y| |w|key|ms].
  - rewrite step_click. set (s0 := with_defaultPrevented s false).
    apply (throttle_invariant_ext s0).
    + apply run_listeners_keeps; [apply throttle_of_uncaught|].
      apply click_listeners_preserves; try intro; frame_any.
    + revert H. apply throttle_invariant_ext. destruct_page s; reflexivity.
  - destruct (step_scroll_throttle y s H) as (A & B & _). right. auto.
  - destruct Hc as (_ & Hh & _).
    destruct (header s) as [h|] eqn:E; [|contradiction].
    destruct (step_frame_throttle s h E H) as (A & B & _). left. auto.
  - unfold step. apply (throttle_invariant_ext (with_innerWidth s w)).
    + apply run_listeners_keeps; [apply throttle_of_uncaught|].
      each_listener. frame_any.
    + revert H. apply throttle_invariant_ext. destruct_page s; reflexivity.
  - unfold step. apply (throttle_invariant_ext s); [|exact H].
    apply run_listeners_keeps; [apply throttle_of_uncaught|].
    each_listener. frame_any.
  - unfold step, elapse.
    pose proof (run_timers_throttle (length (timers s)) (clock s + ms) s) as K.
    revert K. generalize (run_timers (length (timers s)) (clock s + ms) s).
    intros s1 K. apply (throttle_invariant_ext s1).
    + destruct_page s1. reflexivity.
    + apply (throttle_invariant_ext s); assumption.
Qed.

(** X2. On a complete document the throttle flag and the frame queue stay
    in step through every sequence of events: either the flag is down
    and no callback waits, or the flag is up and exactly one
    [handleScroll] callback waits.  So at most one header update runs per
    frame, and a raised flag is always lowered by the next frame. *)
Theorem throttle_invariant_kept (s : Page) (evs : list Event) :
  complete s -> throttle_invariant s ->
  throttle_invariant (run evs s) /\
  isScrolling (step AnimationFrame (run evs s)) = false.
Proof.
  intros Hc H.
  assert (G : forall evs s, complete s -> throttle_invariant s ->
              complete (run evs s) /\ throttle_invariant (run evs s)).
  { clear. induction evs as [|ev evs IH]; intros s Hc H; [auto|].
    rewrite run_cons. apply IH.
    - apply step_safe, Hc.
    - apply step_throttle; assumption. }
  destruct (G evs s Hc H) as [Hc' H']. split; [exact H'|].
  destruct Hc' as (_ & Hh & _).
  destruct (header (run evs s)) as [h|] eqn:E; [|contradiction].
  apply (step_frame_throttle _ h E H').
Qed.

Lemma throttle_invariant_kept_witness :
  throttle_invariant
    (run [Scroll 50; Scroll 300; Click on_about_link; Resize 500] Example.page) /\
  isScrolling
    (step AnimationFrame
       (run [Scroll 50; Scroll 300; Click on_about_link; Resize 500] Example.page))
    = false.
Proof.
  apply (throttle_invariant_kept Example.page
           [Scroll 50; Scroll 300; Click on_about_link; Resize 500]).
  - exact example_complete.
  - left. split; reflexivity.
Defined.

Lemma scrolls_throttle ys :
  forall s, throttle_invariant s ->
    throttle_invariant (run (map Scroll ys) s) /\
    header (run (map Scroll ys) s) = header s.
Proof.
  induction ys as [|y ys IH]; intros s H; [auto|].
  simpl map. rewrite run_cons.
  destruct (step_scroll_throttle y s H) as (A & B & _ & D).
  destruct (IH (step (Scroll y) s)) as [E F]; [right; auto|].
  split; [exact E|congruence].
Qed.

(** X3. A burst of scroll events followed by one animation frame, on a
    page with a header whose throttle is in step: whatever positions the
    burst passed through, after the frame the header has the class
    [scrolled] exactly when the last position is above 100, the flag is
    down and no callback waits. *)
Theorem scroll_burst_updates_header (s : Page) (h : Element)
    (ys : list Z) (y : Z) :
  header s = Some h -> throttle_invariant s ->
  (header_scrolled (run (map Scroll (ys ++ [y]) ++ [AnimationFrame]) s) = true
     <-> 100 < y) /\
  isScrolling (run (map Scroll (ys ++ [y]) ++ [AnimationFrame]) s) = false /\
  frameQueue (run (map Scroll (ys ++ [y]) ++ [AnimationFrame]) s) = [].
Proof.
  intros Hh H. rewrite map_app, !run_app. simpl map.
  destruct (scrolls_throttle ys s H) as [H1 Hh1].
  set (s1 := run (map Scroll ys) s) in *.
  change (run [Scroll y] s1) with (step (Scroll y) s1).
  destruct (step_scroll_throttle y s1 H1) as (A & B & C & D).
  set (s2 := step (Scroll y) s1) in *.
  change (run [AnimationFrame] s2) with (step AnimationFrame s2).
  assert (Hh2 : header s2 = Some h) by congruence.
  destruct (step_frame_throttle s2 h Hh2) as (E & F & G); [right; auto|].
  split; [|auto]. rewrite (G A), C. apply Z.ltb_lt.
Qed.

Lemma scroll_burst_updates_header_witness :
  (header_scrolled
     (run (map Scroll ([20; 400; 900] ++ [60]) ++ [AnimationFrame]) Example.page)
     = true <-> 100 < 60) /\
  isScrolling
    (run (map Scroll ([20; 400; 900] ++ [60]) ++ [AnimationFrame]) Example.page)
    = false /\
  frameQueue
    (run (map Scroll ([20; 400; 900] ++ [60]) ++ [AnimationFrame]) Example.page)
    = [].
Proof.
  apply (scroll_burst_updates_header Example.page Example.headerBar [20; 400; 900] 60).
  - reflexivity.
  - left. split; reflexivity.
Defined.

(* ================================================================== *)
(** ** More on the highlight *)
(* ================================================================== *)

(** Either no section matches, or one is the last to match. *)
Lemma last_match_cases pos secs :
  Forall (fun x => span_contains pos x = false) secs \/
  exists pre sec post,
    secs = (pre ++ sec :: post)%list /\ span_contains pos sec = true /\
    Forall (fun x => span_contains pos x = false) post.
Proof.
  induction secs as [|x secs IH]; [left; constructor|].
  destruct IH as [IH|(pre & sec & post & E & A & B)].
  - destruct (span_contains pos x) eqn:Ex.
    + right. exists [], x, secs. auto.
    + left. constructor; assumption.
  - right. exists (x :: pre), sec, post. subst secs. auto.
Qed.

Lemma highlight_idem pos secs links :
  highlight pos secs (highlight pos secs links) = highlight pos secs links.
Proof.
  destruct (last_match_cases pos secs) as [H|(pre & sec & post & E & A & B)].
  - rewrite !(highlight_no_match pos secs) by exact H. reflexivity.
  - subst secs. rewrite !(highlight_last_match pos pre sec post) by assumption.
    apply map_mark_link_absorb.
Qed.

Lemma mark_link_same_but_active i link : same_but_active link (mark_link i link).
Proof.
  unfold same_but_active, mark_link.
  destruct (href_is _ _); simpl; repeat split; intros c Hc.
  - rewrite contains_add_other by exact Hc.
    apply ClassListFacts.contains_remove_other, Hc.
  - apply ClassListFacts.contains_remove_other, Hc.
Qed.

Lemma same_but_active_refl links : Forall2 same_but_active links links.
Proof.
  induction links; constructor; [|assumption]. repeat split.
Qed.

Lemma highlight_same_but_active pos secs links :
  Forall2 same_but_active links (highlight pos secs links).
Proof.
  destruct (last_match_cases pos secs) as [H|(pre & sec & post & E & A & B)].
  - rewrite (highlight_no_match pos secs) by exact H. apply same_but_active_refl.
  - subst secs. rewrite (highlight_last_match pos pre sec post) by assumption.
    induction links; simpl; constructor; [apply mark_link_same_but_active|assumption].
Qed.

Lemma scroll_state_with_links s links :
  scrollPos (with_navLinkItems s links) = scrollPos s /\
  sections (with_navLinkItems s links) = sections s.
Proof. destruct_page s. split; reflexivity. Qed.

(** X4. On every page [updateActiveNav] returns normally and writes
    nothing but the link list; each link keeps its place, its
    attributes, its geometry and every class other than [active]; and a
    second run at the same scroll position changes nothing more. *)
Theorem updateActiveNav_touches_only_active (s : Page) :
  exists links',
    updateActiveNav s = (Normal tt, with_navLinkItems s links') /\
    Forall2 same_but_active (navLinkItems s) links' /\
    updateActiveNav (with_navLinkItems s links')
      = (Normal tt, with_navLinkItems s links').
Proof.
  exists (highlight (scrollPos s) (sections s) (navLinkItems s)).
  split; [apply updateActiveNav_run|]. split; [apply highlight_same_but_active|].
  rewrite updateActiveNav_run.
  destruct (scroll_state_with_links s
              (highlight (scrollPos s) (sections s) (navLinkItems s))) as [A B].
  rewrite A, B, navLinkItems_with, with_navLinkItems_twice, highlight_idem.
  reflexivity.
Qed.

(* ================================================================== *)
(** ** What each event does to the menu *)
(* ================================================================== *)

Lemma menu_closed_ext s s' : same_menu s s' -> menu_closed s -> menu_closed s'.
Proof.
  intros H. apply same_menu_fields in H. destruct H as (A & B & C).
  unfold menu_closed, nav_active, toggle_active, toggle_aria. rewrite A, B, C. trivial.
Qed.

Lemma run_listener_same_menu c s :
  preserves menu_of c -> same_menu s (run_listener c s).
Proof.
  intros H. apply run_listener_keeps; [|exact H].
  intros s0 n. destruct_page s0. reflexivity.
Qed.

Lemma run_listener_normal c s s' :
  c s = (Normal tt, s') -> run_listener c s = s'.
Proof. intros H. unfold run_listener. rewrite H. reflexivity. Qed.

Lemma run_listener_closeMenu s :
  menu_present s ->
  menu_closed (run_listener closeMenu s) /\ menu_present (run_listener closeMenu s).
Proof.
  intros Hp. destruct (menu_present_inv s Hp) as (nl & mt & Hnl & Hmt).
  rewrite (run_listener_normal _ _ _ (closeMenu_run s nl mt Hnl Hmt)).
  split; [apply closed_is_closed|apply set_menu_present].
Qed.

Lemma keydownListener_other key s :
  key <> "Escape" -> keydownListener key s = (Normal tt, s).
Proof.
  intros H. apply String.eqb_neq in H. unfold keydownListener, bind, when, ret.
  rewrite H. reflexivity.
Qed.

(** X5. The keyboard listener acts on Escape with an open menu only.  Any
    other key leaves every page exactly as it was, missing elements or
    not; Escape with the panel present and not active does the same;
    Escape with both menu elements present and the panel active closes
    the menu. *)
Theorem keydown_closes_only_on_escape (s : Page) (key : string) :
  (key <> "Escape" -> step (KeyDown key) s = s) /\
  (navLinks s <> None -> nav_active s = false -> step (KeyDown "Escape") s = s) /\
  (menu_present s -> nav_active s = true -> menu_closed (step (KeyDown "Escape") s)).
Proof.
  unfold step. change (run_listeners [?c] ?x) with (run_listener c x).
  split; [|split].
  - intros H. apply run_listener_normal, keydownListener_other, H.
  - intros Hn Ha. apply run_listener_normal.
    rewrite (keydownListener_run "Escape" s Hn), Ha. reflexivity.
  - intros Hp Ha.
    replace (run_listener (keydownListener "Escape") s) with (run_listener closeMenu s).
    + apply run_listener_closeMenu, Hp.
    + unfold run_listener. rewrite (keydownListener_run "Escape" s (proj1 Hp)), Ha.
      reflexivity.
Qed.

Lemma keydown_closes_only_on_escape_witness :
  step (KeyDown "Enter") Example.phoneOpen = Example.phoneOpen /\
  step (KeyDown "Escape") Example.phone = Example.phone /\
  menu_closed (step (KeyDown "Escape") Example.phoneOpen).
Proof.
  split; [|split].
  - apply (proj1 (keydown_closes_only_on_escape Example.phoneOpen "Enter")).
    discriminate.
  - apply (proj1 (proj2 (keydown_closes_only_on_escape Example.phone "Escape")));
      [discriminate|reflexivity].
  - apply (proj2 (proj2 (keydown_closes_only_on_escape Example.phoneOpen "Escape")));
      [split; discriminate|reflexivity].
Defined.

(** X6. A resize on a page with both menu elements: to a width above 768
    with the panel active it closes the menu; to a width of at most 768,
    or with the panel not active, it leaves the menu fields as they
    were. *)
Theorem resize_closes_open_menu_on_desktop (s : Page) (w : Z) :
  menu_present s ->
  (768 < w -> nav_active s = true -> menu_closed (step (Resize w) s)) /\
  (w <= 768 \/ nav_active s = false -> same_menu s (step (Resize w) s)).
Proof.
  intros Hp. unfold step. change (run_listeners [?c] ?x) with (run_listener c x).
  set (s0 := with_innerWidth s w).
  assert (Hm0 : same_menu s s0) by (destruct_page s; reflexivity).
  assert (Hw0 : innerWidth s0 = w) by (destruct_page s; reflexivity).
  pose proof (same_menu_present _ _ Hm0 Hp) as Hp0.
  pose proof (same_menu_nav_active _ _ Hm0) as Ha0.
  unfold run_listener. rewrite resizeListener_split. unfold bind.
  rewrite (resize_close_run s0 Hp0), Hw0, Ha0.
  split.
  - intros Hw Ha. rewrite Ha. apply Z.ltb_lt in Hw. rewrite Hw. simpl.
    destruct (menu_present_inv s0 Hp0) as (nl & mt & Hnl & Hmt).
    rewrite (closeMenu_run s0 nl mt Hnl Hmt).
    pose proof (closed_is_closed nl mt s0) as Hc1.
    set (s1 := set_menu (deactivated nl)
                 (set_aria_expanded "false" (deactivated mt)) "" s0) in *.
    pose proof (rearm_same_menu s1) as K.
    destruct (rearm s1) as [[[]|] s2]; simpl in K.
    + exact (menu_closed_ext s1 s2 K Hc1).
    + apply (menu_closed_ext s1); [|exact Hc1].
      apply (keeps_trans menu_of s1 s2); [exact K|]. destruct_page s2; reflexivity.
  - intros Hc.
    assert (E : (768 <? w) && nav_active s = false).
    { destruct Hc as [Hc|Hc].
      - apply Z.ltb_ge in Hc. rewrite Hc. reflexivity.
      - rewrite Hc. apply andb_false_r. }
    rewrite E. pose proof (rearm_same_menu s0) as K.
    destruct (rearm s0) as [[[]|] s2]; simpl in K.
    + exact (keeps_trans menu_of s s0 s2 Hm0 K).
    + apply (keeps_trans menu_of s s0); [exact Hm0|].
      apply (keeps_trans menu_of s0 s2); [exact K|]. destruct_page s2; reflexivity.
Qed.

Lemma resize_closes_open_menu_on_desktop_witness :
  menu_closed (step (Resize 1024) Example.phoneOpen) /\
  same_menu Example.phoneOpen (step (Resize 600) Example.phoneOpen).
Proof.
  assert (Hp : menu_present Example.phoneOpen) by (split; discriminate).
  destruct (resize_closes_open_menu_on_desktop Example.phoneOpen 1024 Hp) as [A _].
  destruct (resize_closes_open_menu_on_desktop Example.phoneOpen 600 Hp) as [_ B].
  split.
  - apply A; reflexivity.
  - apply B. left. lia.
Defined.

Lemma documentClick_keeps_menu t s :
  closes_on_click t s = false -> same_menu s (run_listener (documentClick t) s).
Proof.
  intros H. unfold run_listener. pose proof (documentClick_skips t s H) as K.
  destruct (documentClick t s) as [[[]|] s1]; simpl in K; [exact K|].
  apply (keeps_trans menu_of s s1); [exact K|]. destruct_page s1; reflexivity.
Qed.

Lemma closes_on_click_ext t s s' :
  same_menu s s' -> innerWidth s' = innerWidth s ->
  closes_on_click t s' = closes_on_click t s.
Proof.
  intros H Hw. unfold closes_on_click.
  rewrite (same_menu_nav_active _ _ H), Hw. reflexivity.
Qed.

Lemma width_kept_by_listener c s :
  preserves innerWidth c -> innerWidth (run_listener c s) = innerWidth s.
Proof.
  intros H. apply (run_listener_keeps innerWidth c s); [|exact H].
  intros s0 n. destruct_page s0. reflexivity.
Qed.

(** X7. A click on a navigation anchor that is not inside the toggle, on
    a page with both menu elements: at a width of at most 768 the menu
    is closed when the event is over, whether it was open or not and
    whatever the anchor's href; above 768 the menu fields are left as
    they were. *)
Theorem nav_link_click_closes_menu_on_mobile (s : Page) (t : ClickTarget)
    (i : nat) (link : Element) :
  menu_present s ->
  on_link t = Some i -> nth_error (navLinkItems s) i = Some link ->
  in_menuToggle t = false ->
  (innerWidth s <= 768 -> menu_closed (step (Click t) s)) /\
  (768 < innerWidth s -> same_menu s (step (Click t) s)).
Proof.
  intros Hp Hon Hnth Htg. rewrite step_click.
  set (s0 := with_defaultPrevented s false).
  assert (Hm0 : same_menu s s0) by (destruct_page s; reflexivity).
  assert (Hw0 : innerWidth s0 = innerWidth s) by (destruct_page s; reflexivity).
  assert (E0 : navLinkItems s0 = navLinkItems s) by (destruct_page s; reflexivity).
  pose proof (same_menu_present _ _ Hm0 Hp) as Hp0.
  unfold click_listeners. rewrite Hon, E0, Hnth, Htg.
  assert (Hl : forall x,
             run_listeners
               ([linkClickClose; smoothScrollClick link] ++
                match menuToggle s0 with Some _ => [] | None => [] end ++
                [documentClick t])%list x
             = run_listener (documentClick t)
                 (run_listener (smoothScrollClick link)
                    (run_listener linkClickClose x))).
  { intros x. destruct (menuToggle s0); reflexivity. }
  rewrite Hl. clear Hl.
  set (s1 := run_listener linkClickClose s0).
  set (s2 := run_listener (smoothScrollClick link) s1).
  assert (K2 : same_menu s1 s2)
    by (apply run_listener_same_menu, smoothScrollClick_same_menu).
  assert (W1 : innerWidth s1 = innerWidth s0)
    by (apply width_kept_by_listener; frame_any).
  assert (W2 : innerWidth s2 = innerWidth s1)
    by (apply width_kept_by_listener; frame_any).
  split.
  - intros Hw. apply Z.leb_le in Hw.
    assert (C1 : menu_closed s1).
    { unfold s1, run_listener. rewrite linkClickClose_run, Hw0, Hw.
      apply run_listener_closeMenu, Hp0. }
    pose proof (menu_closed_ext _ _ K2 C1) as C2.
    apply (menu_closed_ext s2); [|exact C2].
    apply documentClick_keeps_menu. unfold closes_on_click.
    rewrite (proj1 C2). apply andb_false_r.
  - intros Hw. apply Z.leb_gt in Hw.
    assert (K1 : s1 = s0).
    { unfold s1. apply run_listener_normal. rewrite linkClickClose_run, Hw0, Hw.
      reflexivity. }
    apply (keeps_trans menu_of s s0); [exact Hm0|].
    apply (keeps_trans menu_of s0 s2); [rewrite <- K1; exact K2|].
    apply documentClick_keeps_menu. unfold closes_on_click.
    rewrite W2, W1, Hw0, Hw. reflexivity.
Qed.

Lemma nav_link_click_closes_menu_on_mobile_witness :
  menu_closed (step (Click on_about_link) Example.phoneOpen) /\
  same_menu Example.page (step (Click on_about_link) Example.page).
Proof.
  assert (Hp : menu_present Example.phoneOpen) by (split; discriminate).
  split.
  - apply (proj1 (nav_link_click_closes_menu_on_mobile Example.phoneOpen
                    on_about_link 1 (Example.anchor "#about")
                    Hp eq_refl eq_refl eq_refl)).
    simpl. lia.
  - apply (proj2 (nav_link_click_closes_menu_on_mobile Example.page
                    on_about_link 1 (Example.anchor "#about")
                    example_menu_present eq_refl eq_refl eq_refl)).
    simpl. lia.
Defined.

Lemma menu_view_toggled nl mt s :
  navLinks s = Some nl -> menuToggle s = Some mt ->
  menu_view
    (set_menu (toggled nl)
       (set_aria_expanded (string_of_bool (negb (has_active nl))) (toggled mt))
       (if negb (has_active nl) then "hidden" else "") s)
  = (negb (nav_active s), negb (toggle_active s),
     Some (string_of_bool (negb (nav_active s))),
     if negb (nav_active s) then "hidden" else "").
Proof.
  intros Hnl Hmt. unfold menu_view, nav_active, toggle_active, toggle_aria.
  rewrite Hnl, Hmt.
  destruct (set_menu_fields (toggled nl)
              (set_aria_expanded (string_of_bool (negb (has_active nl))) (toggled mt))
              (if negb (has_active nl) then "hidden" else "") s) as (A & B & C).
  rewrite A, B, C, has_active_set_aria, !has_active_toggled. reflexivity.
Qed.

(** X8. A click on the toggle, on a page with both menu elements, flips
    the menu and the document's listener does not undo it: when the
    event is over the [active] class of panel and toggle is inverted,
    [aria-expanded] is the string of the panel's new state and the body
    overflow is [hidden] for an open menu and empty for a closed one, at
    every window width. *)
Theorem toggle_click_flips_menu (s : Page) (t : ClickTarget) :
  menu_present s -> on_link t = None -> in_menuToggle t = true ->
  menu_view (step (Click t) s)
  = (negb (nav_active s), negb (toggle_active s),
     Some (string_of_bool (negb (nav_active s))),
     if negb (nav_active s) then "hidden" else "").
Proof.
  intros Hp Hon Htg. rewrite step_click.
  set (s0 := with_defaultPrevented s false).
  assert (Hm0 : same_menu s s0) by (destruct_page s; reflexivity).
  pose proof (same_menu_present _ _ Hm0 Hp) as Hp0.
  destruct (menu_present_inv s0 Hp0) as (nl & mt & Hnl & Hmt).
  unfold click_listeners. rewrite Hon, Htg, Hmt.
  change (run_listeners ([] ++ [toggleMenu] ++ [documentClick t])%list s0)
    with (run_listener (documentClick t) (run_listener toggleMenu s0)).
  rewrite (run_listener_normal _ _ _ (toggleMenu_run s0 nl mt Hnl Hmt)).
  set (s1 := set_menu _ _ _ s0).
  rewrite (same_menu_view s1 (run_listener (documentClick t) s1)).
  - unfold s1. rewrite (menu_view_toggled nl mt s0 Hnl Hmt). reflexivity.
  - apply documentClick_keeps_menu. unfold closes_on_click. rewrite Htg. simpl.
    rewrite andb_false_r. reflexivity.
Qed.

Lemma toggle_click_flips_menu_witness :
  menu_view (step (Click on_toggle) Example.phone) = (true, true, Some "true", "hidden").
Proof.
  apply (toggle_click_flips_menu Example.phone on_toggle);
    [split; discriminate|reflexivity|reflexivity].
Defined.

Lemma smoothScrollClick_not_fragment link s :
  not_fragment link ->
  smoothScrollClick link s =
    match attr_href link with
    | Some _ => (Normal tt, s)
    | None => (Throw, s)
    end.
Proof.
  unfold not_fragment, smoothScrollClick. intros H.
  destruct (attr_href link) as [href|]; [|reflexivity].
  unfold bind at 1, deref at 1, ret at 1. rewrite H. reflexivity.
Qed.

(** X9. A click on a navigation anchor whose href does not start with
    [#], or that has no href at all, is not intercepted: when the event
    is over its default is not cancelled and no scroll has been
    requested, with or without a header.  For an anchor without href the
    smooth-scroll listener ends in a TypeError where it reads the href. *)
Theorem click_on_other_link_passes_through (s : Page) (t : ClickTarget)
    (i : nat) (link : Element) :
  on_link t = Some i -> nth_error (navLinkItems s) i = Some link ->
  not_fragment link ->
  defaultPrevented (step (Click t) s) = false /\
  scrollRequests (step (Click t) s) = scrollRequests s /\
  (attr_href link = None -> forall s1, smoothScrollClick link s1 = (Throw, s1)).
Proof.
  intros Hon Hnth Hnf.
  destruct (step_click_on_link t s i link Hon Hnth) as (s1 & K1 & K2).
  apply outside_fields in K1. destruct K1 as (_ & _ & C1 & D1 & _).
  apply outside_fields in K2. destruct K2 as (_ & _ & C2 & D2 & _).
  assert (E : defaultPrevented (run_listener (smoothScrollClick link) s1)
              = defaultPrevented s1 /\
              scrollRequests (run_listener (smoothScrollClick link) s1)
              = scrollRequests s1).
  { unfold run_listener. rewrite (smoothScrollClick_not_fragment link s1 Hnf).
    destruct (attr_href link); [auto|]. destruct_page s1. auto. }
  destruct E as [E1 E2]. split; [|split].
  - rewrite C2, E1, C1. destruct_page s. reflexivity.
  - rewrite D2, E2, D1. destruct_page s. reflexivity.
  - intros Hn s2. rewrite (smoothScrollClick_not_fragment link s2 Hnf), Hn.
    reflexivity.
Qed.

Lemma click_on_other_link_passes_through_witness :
  defaultPrevented
    (step (Click (mkTarget (Some 0%nat) true false))
       (with_navLinkItems Example.page [Example.anchor "menu.html#sushi"])) = false /\
  scrollRequests
    (step (Click (mkTarget (Some 0%nat) true false))
       (with_navLinkItems Example.page [Example.anchor "menu.html#sushi"])) = [].
Proof.
  destruct (click_on_other_link_passes_through
              (with_navLinkItems Example.page [Example.anchor "menu.html#sushi"])
              (mkTarget (Some 0%nat) true false) 0
              (Example.anchor "menu.html#sushi") eq_refl eq_refl eq_refl)
    as (A & B & _).
  split; [exact A|exact B].
Defined.

(* ================================================================== *)
(** ** External links *)
(* ================================================================== *)

Lemma secure_has_rel a :
  ExternalLinks.hasAttribute_rel (ExternalLinks.secure a) = true.
Proof.
  unfold ExternalLinks.secure, ExternalLinks.hasAttribute_rel.
  destruct (ExternalLinks.attr_rel a) eqn:E; simpl; [rewrite E|]; reflexivity.
Qed.

Lemma secure_selected a :
  ExternalLinks.selected (ExternalLinks.secure a) = ExternalLinks.selected a.
Proof.
  unfold ExternalLinks.secure. destruct (negb _); reflexivity.
Qed.

Lemma secure_fixes a :
  ExternalLinks.hasAttribute_rel a = true -> ExternalLinks.secure a = a.
Proof. unfold ExternalLinks.secure. intros H. rewrite H. reflexivity. Qed.

(** X10. The external-link loop keeps the number and order of anchors and
    never changes a [target].  Afterwards every anchor the selector
    matches has a [rel] attribute; an anchor that already had one, even
    an empty one, and an anchor the selector does not match are exactly
    as before; and running the loop again changes nothing. *)
Theorem harden_external_links (anchors : list ExternalLinks.Anchor) :
  map ExternalLinks.attr_target (ExternalLinks.harden anchors)
    = map ExternalLinks.attr_target anchors /\
  Forall (fun a => ExternalLinks.selected a = true ->
                   ExternalLinks.hasAttribute_rel a = true)
         (ExternalLinks.harden anchors) /\
  Forall2 (fun a a' =>
             (ExternalLinks.selected a = false \/
              ExternalLinks.hasAttribute_rel a = true -> a' = a) /\
             (ExternalLinks.selected a = true ->
              ExternalLinks.hasAttribute_rel a = false ->
              ExternalLinks.attr_rel a' = Some "noopener noreferrer"))
          anchors (ExternalLinks.harden anchors) /\
  ExternalLinks.harden (ExternalLinks.harden anchors) = ExternalLinks.harden anchors.
Proof.
  unfold ExternalLinks.harden. split; [|split; [|split]].
  - rewrite map_map. apply map_ext. intros a.
    destruct (ExternalLinks.selected a); [|reflexivity].
    unfold ExternalLinks.secure. destruct (negb _); reflexivity.
  - apply Forall_forall. intros a' Hin. apply in_map_iff in Hin.
    destruct Hin as (a & <- & _). destruct (ExternalLinks.selected a) eqn:E.
    + intros _. apply secure_has_rel.
    + rewrite E. discriminate.
  - induction anchors as [|a l IH]; simpl; constructor; [|exact IH]. split.
    + intros [H|H]; [rewrite H; reflexivity|].
      destruct (ExternalLinks.selected a); [apply secure_fixes, H|reflexivity].
    + intros Hs Hr. rewrite Hs. unfold ExternalLinks.secure. rewrite Hr. reflexivity.
  - rewrite map_map. apply map_ext. intros a.
    destruct (ExternalLinks.selected a) eqn:E.
    + rewrite secure_selected, E. apply secure_fixes, secure_has_rel.
    + rewrite E. reflexivity.
Qed.

(* ================================================================== *)
(** ** The visibility animator *)
(* ================================================================== *)

Lemma style_at_length i f els : length (Reveal.style_at i f els) = length els.
Proof.
  revert i. induction els as [|e r IH]; intros [|j]; simpl; auto.
Qed.

Lemma style_at_same i f els :
  nth_error (Reveal.style_at i f els) i = option_map f (nth_error els i).
Proof.
  revert i. induction els as [|e r IH]; intros [|j]; simpl; auto.
Qed.

Lemma style_at_other i j f els :
  i <> j -> nth_error (Reveal.style_at i f els) j = nth_error els j.
Proof.
  revert i j. induction els as [|e r IH]; intros [|i] [|j] H; simpl; auto.
  contradiction.
Qed.

(** One callback: an element is revealed by it or keeps its style. *)
Lemma observerCallback_nth entries :
  forall els i st,
    nth_error els i = Some st ->
    nth_error (Reveal.observerCallback entries els) i
      = Some (if Reveal.seen i entries
              then Reveal.mkStyle "1" "translateY(0)" (Reveal.transition st)
              else st).
Proof.
  unfold Reveal.observerCallback, Reveal.seen.
  induction entries as [|e entries IH]; intros els i st H; simpl; [exact H|].
  destruct (Reveal.isIntersecting e) eqn:Ei; simpl.
  - destruct (Nat.eqb (Reveal.target e) i) eqn:Et.
    + apply Nat.eqb_eq in Et. subst i.
      rewrite (IH _ (Reveal.target e) (Reveal.show st))
        by (rewrite style_at_same, H; reflexivity).
      simpl. destruct (existsb _ entries); reflexivity.
    + apply Nat.eqb_neq in Et.
      apply IH. rewrite style_at_other by exact Et. exact H.
  - apply IH, H.
Qed.

Lemma seen_app i l1 l2 :
  Reveal.seen i (l1 ++ l2) = Reveal.seen i l1 || Reveal.seen i l2.
Proof. unfold Reveal.seen. apply existsb_app. Qed.

Lemma after_nth batches :
  forall els i st,
    nth_error els i = Some st ->
    nth_error (fold_left (fun acc entries => Reveal.observerCallback entries acc)
                 batches els) i
      = Some (if Reveal.seen i (concat batches)
              then Reveal.mkStyle "1" "translateY(0)" (Reveal.transition st)
              else st).
Proof.
  induction batches as [|b batches IH]; intros els i st H; simpl; [exact H|].
  rewrite (IH _ i _ (observerCallback_nth b els i st H)).
  rewrite seen_app. destruct (Reveal.seen i b); simpl; [|reflexivity].
  destruct (Reveal.seen i (concat batches)); reflexivity.
Qed.

(** X11. The reveal is one-way.  After the load listener and any series
    of observer callbacks, an observed element is in one of two states:
    revealed (opacity 1, no offset) when some entry so far reported it as
    intersecting, hidden (opacity 0, offset 30px) otherwise, with the
    transition set in both; entries that do not intersect, and entries
    for other elements, never change it, so a revealed element is never
    hidden again. *)
Theorem reveal_is_one_way (els : list Reveal.Style) (batches : list (list Reveal.Entry))
    (i : nat) :
  (i < length els)%nat ->
  nth_error (Reveal.after batches els) i
    = Some (if Reveal.seen i (concat batches) then Reveal.revealed else Reveal.hidden).
Proof.
  intros Hi. unfold Reveal.after.
  destruct (nth_error els i) as [st|] eqn:E;
    [|apply nth_error_None in E; lia].
  rewrite (after_nth batches _ i (Reveal.hide st)).
  - reflexivity.
  - unfold Reveal.domContentLoaded. rewrite nth_error_map, E. reflexivity.
Qed.

Lemma reveal_is_one_way_witness :
  nth_error
    (Reveal.after
       [[Reveal.mkEntry 0 false; Reveal.mkEntry 1 true]; [Reveal.mkEntry 1 false]]
       [Reveal.mkStyle "" "" ""; Reveal.mkStyle "0.5" "" "none"]) 1
    = Some Reveal.revealed.
Proof.
  apply (reveal_is_one_way
           [Reveal.mkStyle "" "" ""; Reveal.mkStyle "0.5" "" "none"]
           [[Reveal.mkEntry 0 false; Reveal.mkEntry 1 true]; [Reveal.mkEntry 1 false]]
           1).
  simpl. lia.
Defined.

(* ================================================================== *)
(** ** The debounce utility *)
(* ================================================================== *)

Section DebounceFacts.

Context {Args : Type}.
Variable wait : Z.

Lemma executedFunction_arms args (st : Debounce.State Args) :
  Debounce.idle_or_held Args st ->
  Debounce.armed Args wait args (Debounce.executedFunction Args wait args st) /\
  Debounce.now Args (Debounce.executedFunction Args wait args st)
    = Debounce.now Args st /\
  Debounce.calls Args (Debounce.executedFunction Args wait args st)
    = Debounce.calls Args st.
Proof.
  intros H. unfold Debounce.executedFunction, Debounce.armed, Debounce.cancel.
  destruct st as [tm pend nx nw cl]; simpl in *.
  destruct H as [H|(h & due & a & Hp & Ht)]; simpl in *; subst.
  - destruct tm; simpl; (split; [eexists; split; reflexivity|split; reflexivity]).
  - simpl. unfold Debounce.handle_of. simpl. rewrite Nat.eqb_refl. simpl.
    split; [eexists; split; reflexivity|split; reflexivity].
Qed.

Lemma wait_short args g (st : Debounce.State Args) :
  Debounce.armed Args wait args st -> 0 <= g < Z.max 0 wait ->
  Debounce.idle_or_held Args (Debounce.wait_for Args g st) /\
  Debounce.now Args (Debounce.wait_for Args g st) = Debounce.now Args st + g /\
  Debounce.calls Args (Debounce.wait_for Args g st) = Debounce.calls Args st.
Proof.
  intros (h & Hp & Ht) Hg. unfold Debounce.wait_for. rewrite Hp. simpl.
  rewrite Hp. simpl. unfold Debounce.due_of. simpl.
  destruct (Debounce.now Args st + Z.max 0 wait <=? Debounce.now Args st + g) eqn:E.
  - apply Z.leb_le in E. lia.
  - simpl. split; [|split; reflexivity]. right. exists h. eauto.
Qed.

Lemma wait_long args d (st : Debounce.State Args) :
  Debounce.armed Args wait args st -> Z.max 0 wait <= d ->
  Debounce.calls Args (Debounce.wait_for Args d st)
    = (Debounce.calls Args st ++ [(Debounce.now Args st + Z.max 0 wait, args)])%list /\
  Debounce.pending Args (Debounce.wait_for Args d st) = [].
Proof.
  intros (h & Hp & Ht) Hd. unfold Debounce.wait_for. rewrite Hp. simpl.
  rewrite Hp. simpl. unfold Debounce.due_of. simpl.
  destruct (Debounce.now Args st + Z.max 0 wait <=? Debounce.now Args st + d) eqn:E.
  - unfold Debounce.expire, Debounce.later, Debounce.cancel. simpl.
    rewrite Hp, Ht. simpl. unfold Debounce.handle_of. simpl.
    rewrite Nat.eqb_refl. simpl. split; reflexivity.
  - apply Z.leb_gt in E. lia.
Qed.

Lemma last_nonempty_default {A} (x d d' : A) l : last (x :: l) d = last (x :: l) d'.
Proof.
  revert x. induction l as [|y l IH]; intros x; [reflexivity|].
  change (last (x :: y :: l) d) with (last (y :: l) d).
  change (last (x :: y :: l) d') with (last (y :: l) d'). apply IH.
Qed.

Lemma last_cons_default {A} (a d : A) l : last (a :: l) d = last l a.
Proof.
  destruct l as [|x l]; [reflexivity|].
  change (last (a :: x :: l) d) with (last (x :: l) d).
  apply last_nonempty_default.
Qed.

Lemma more_calls_run rest :
  forall first (st : Debounce.State Args),
    Debounce.armed Args wait first st ->
    Forall (fun p => 0 <= fst p < Z.max 0 wait) rest ->
    Debounce.armed Args wait (Debounce.last_args Args first rest)
      (Debounce.more_calls Args wait rest st) /\
    Debounce.now Args (Debounce.more_calls Args wait rest st)
      = Debounce.now Args st + Debounce.gaps Args rest /\
    Debounce.calls Args (Debounce.more_calls Args wait rest st)
      = Debounce.calls Args st.
Proof.
  induction rest as [|[g a] rest IH]; intros first st Ha Hr.
  - simpl. split; [exact Ha|]. split; [lia|reflexivity].
  - inversion Hr as [|p ps Hg Hr']; subst. simpl in Hg.
    destruct (wait_short first g st Ha Hg) as (A & B & C).
    destruct (executedFunction_arms a _ A) as (A' & B' & C').
    destruct (IH a _ A' Hr') as (A2 & B2 & C2).
    simpl Debounce.more_calls.
    replace (Debounce.last_args Args first ((g, a) :: rest))
      with (Debounce.last_args Args a rest).
    + split; [exact A2|]. split.
      * rewrite B2, B', B. simpl. lia.
      * rewrite C2, C', C. reflexivity.
    + unfold Debounce.last_args. simpl. symmetry. apply last_cons_default.
Qed.

(** X12. A function made by [debounce] runs [func] once per burst, with
    the arguments of the last call.  From a state in which nothing is
    pending but, at most, the timeout the closure holds: a first call,
    further calls each less than the Z.max 0 wait after the one before, then at
    least the Z.max 0 wait of quiet, add exactly one call of [func], one Z.max 0 wait
    after the last call of the burst and with that call's arguments, and
    leave nothing pending. *)
Theorem debounce_runs_last_call_once (st : Debounce.State Args) (first : Args)
    (rest : list (Z * Args)) (quiet : Z) :
  Debounce.idle_or_held Args st ->
  Forall (fun p => 0 <= fst p < Z.max 0 wait) rest ->
  Z.max 0 wait <= quiet ->
  Debounce.calls Args
    (Debounce.wait_for Args quiet
       (Debounce.more_calls Args wait rest
          (Debounce.executedFunction Args wait first st)))
  = (Debounce.calls Args st ++
     [(Debounce.now Args st + Debounce.gaps Args rest + Z.max 0 wait,
       Debounce.last_args Args first rest)])%list /\
  Debounce.pending Args
    (Debounce.wait_for Args quiet
       (Debounce.more_calls Args wait rest
          (Debounce.executedFunction Args wait first st))) = [].
Proof.
  intros Hi Hr Hq.
  destruct (executedFunction_arms first st Hi) as (A & B & C).
  destruct (more_calls_run rest first _ A Hr) as (A' & B' & C').
  destruct (wait_long _ quiet _ A' Hq) as [D E].
  split; [|exact E]. rewrite D, C', C, B', B. reflexivity.
Qed.

End DebounceFacts.

Lemma debounce_runs_last_call_once_witness :
  Debounce.calls string
    (Debounce.wait_for string 300
       (Debounce.more_calls string 250 [(100, "b"); (200, "c")]
          (Debounce.executedFunction string 250 "a"
             (Debounce.mkState string None [] 1%nat 0 []))))
  = [(550, "c")].
Proof.
  apply (debounce_runs_last_call_once 250
           (Debounce.mkState string None [] 1%nat 0 []) "a"
           [(100, "b"); (200, "c")] 300).
  - left. reflexivity.
  - repeat constructor; simpl; lia.
  - lia.
Defined.

Lemma smoothScrollClick_without_header link targetId target s :
  attr_href link = Some ("#" ++ targetId) -> header s = None ->
  getElementById targetId (byId s) = Some target ->
  smoothScrollClick link s = (Throw, with_defaultPrevented s true).
Proof.
  intros Hh Hhd Ht. unfold smoothScrollClick. rewrite Hh.
  unfold bind at 1, deref at 1, ret at 1.
  rewrite startsWith_hash, substring1_hash. unfold when.
  unfold bind at 1, gets at 1. rewrite Ht.
  unfold preventDefault, bind, modify, deref, throw.
  destruct_page s; simpl in *; subst. reflexivity.
Qed.

(** X13. Without the header a fragment link whose target exists is a dead
    link: the smooth-scroll listener cancels the default jump (line 115)
    and then throws where it reads the header's height (line 118), so
    when the event is over the default is cancelled and no scroll has
    been requested. *)
Theorem fragment_click_without_header (s : Page) (t : ClickTarget) (i : nat)
    (link target : Element) (targetId : string) :
  on_link t = Some i -> nth_error (navLinkItems s) i = Some link ->
  attr_href link = Some ("#" ++ targetId) -> header s = None ->
  getElementById targetId (byId s) = Some target ->
  defaultPrevented (step (Click t) s) = true /\
  scrollRequests (step (Click t) s) = scrollRequests s.
Proof.
  intros Hon Hnth Hhref Hhd Ht.
  destruct (step_click_on_link t s i link Hon Hnth) as (s1 & K1 & K2).
  apply outside_fields in K1. destruct K1 as (A1 & B1 & _ & D1 & _).
  apply outside_fields in K2. destruct K2 as (_ & _ & C2 & D2 & _).
  assert (Hhd1 : header s1 = None) by (rewrite A1; destruct_page s; exact Hhd).
  assert (Ht1 : getElementById targetId (byId s1) = Some target)
    by (rewrite B1; destruct_page s; exact Ht).
  rewrite C2, D2. unfold run_listener.
  rewrite (smoothScrollClick_without_header link targetId target s1 Hhref Hhd1 Ht1).
  split.
  - destruct_page s1. reflexivity.
  - transitivity (scrollRequests s1); [destruct_page s1; reflexivity|].
    rewrite D1. destruct_page s. reflexivity.
Qed.

Lemma fragment_click_without_header_witness :
  defaultPrevented (step (Click on_about_link) Example.pageNoHeader) = true /\
  scrollRequests (step (Click on_about_link) Example.pageNoHeader) = [].
Proof.
  apply (fragment_click_without_header Example.pageNoHeader on_about_link 1
           (Example.anchor "#about") Example.aboutSection "about");
    reflexivity.
Defined.
